(** * FriendChess: the room engine of [server.js]

    A shallow embedding of the socket handlers of [server.js] (join, chat,
    move, disconnect), of room creation, of the page routes and of the two
    helpers [xy_to_uci] and [mode_time], followed by the properties of
    the room engine proved on that embedding.

    Modelling conventions.
    - The room table [games] and the seat table [game.players] are JavaScript
      objects used as dictionaries: they are finite maps keyed by strings,
      holding the objects' own properties. A room id or a mode name comes
      from the client, so a lookup under a name that is not a key also
      sees the members every object inherits ([object_prototype]). Socket
      ids are minted by socket.io and name no such member; the ids under
      which rooms are created are minted by [uuidv4].
    - Numbers are integers ([Z]) below 10^21 in absolute value: seconds,
      millisecond timestamps and the square indices of a move. [parseInt]
      is the identity on them, their conversion to text is the decimal
      numeral, and a sum is rounded to a double where it leaves the
      integers a double holds exactly ([to_double]).
    - The text of a square is a JavaScript string built from a UTF-16 code
      unit ([String.fromCharCode]); it is a list of code units. Chat text,
      ids and mode names are opaque strings.
    - chess.js is an external library: it is an interface ([ChessEngine]),
      with [move] returning [None] where the library answers [null]
      and leaves the position as it was.
    - Handlers return the new room table and the list of calls they made
      into socket.io, in program order; a handler that ends in an
      uncaught [TypeError] ends its list with [Throw] and leaves the
      table as it found it. *)

From Stdlib Require Import ZArith Ascii String DecimalString DecimalZ.
From stdpp Require Import base gmap strings list fin_maps.

Local Open Scope Z_scope.

(** ** JavaScript strings as UTF-16 code units *)

Definition jsstr := list Z.

(** A literal: the code units of an ASCII string. *)
Definition str (s : string) : jsstr :=
  (λ a, Z.of_nat (nat_of_ascii a)) <$> list_ascii_of_string s.

(** [String.fromCharCode(n)]: one code unit, the number modulo 2^16. *)
Definition fromCharCode (n : Z) : jsstr := [n mod 65536].

(** Conversion of an integer to text, as [+] does when its left operand is
    a string. *)
Definition number_to_string (n : Z) : jsstr :=
  str (NilZero.string_of_int (Z.to_int n)).

(** [s[i]]: the one-unit string at index [i], or [None] for [undefined]. *)
Definition index (s : jsstr) (i : nat) : option jsstr :=
  (λ u, [u]) <$> s !! i.

(** The double nearest to an integer, ties to the even significand: the
    integer itself up to 2^53 in absolute value, and beyond that the
    integer with its low bits rounded away so that 53 bits are left. *)
Definition to_double (n : Z) : Z :=
  let a := Z.abs n in
  if decide (a < 2 ^ 53) then n
  else
    let e := Z.log2 a - 52 in
    let q := a / 2 ^ e in
    let r := a mod 2 ^ e in
    let q' :=
      if decide (2 * r < 2 ^ e) then q
      else if decide (2 ^ e < 2 * r) then q + 1
      else if Z.even q then q else q + 1 in
    Z.sgn n * (q' * 2 ^ e).

(** The names a plain object inherits from [Object.prototype]: a lookup
    under one of them that finds no key of the object yields the
    inherited member, a function or an object, instead of [undefined]. *)
Definition object_prototype : list string :=
  ["constructor"; "__defineGetter__"; "__defineSetter__"; "hasOwnProperty";
   "__lookupGetter__"; "__lookupSetter__"; "isPrototypeOf";
   "propertyIsEnumerable"; "toString"; "valueOf"; "__proto__";
   "toLocaleString"].

(** ** Helper functions *)

(** [xy_to_uci(pos)]; the two sums are sums of doubles. *)
Definition xy_to_uci (pos : Z * Z) : jsstr :=
  let x := pos.1 in
  let y := pos.2 in
  fromCharCode (to_double (Z.of_nat (nat_of_ascii "a") + x))
  ++ number_to_string (to_double (y + 1)).

(** [mode_time(mode)]; [None] is [null]. *)
Definition mode_time (mode : string) : option Z :=
  if decide (mode = "blitz") then Some (5 * 60)
  else if decide (mode = "rapid") then Some (10 * 60)
  else if decide (mode = "stopwatch") then Some 0
  else None.

(** ** Data model *)

(** Seat colors, the strings ["white"] and ["black"]. *)
Inductive color := White | Black.

(** Sides as chess.js names them, ["w"] and ["b"]. *)
Inductive side := SideW | SideB.

(** Piece types of chess.js: ["p"], ["n"], ["b"], ["r"], ["q"], ["k"]. *)
Inductive piece_type := Pawn | Knight | Bishop | Rook | Queen | King.

(** What [board.get(square)] returns for an occupied square. *)
Record piece := Piece { ptype : piece_type; pcolor : side }.

(** The argument of [board.move]; [promotion = None] is [undefined]. *)
Record move_request := MoveRequest {
  from : jsstr;
  to : jsstr;
  promotion : option jsstr
}.

#[global] Instance color_eq_dec : EqDecision color.
Proof. solve_decision. Defined.
#[global] Instance side_eq_dec : EqDecision side.
Proof. solve_decision. Defined.
#[global] Instance piece_type_eq_dec : EqDecision piece_type.
Proof. solve_decision. Defined.
#[global] Instance piece_eq_dec : EqDecision piece.
Proof. solve_decision. Defined.

(** The part of chess.js the server uses. [move] returns the position after
    the move and the move's notation ([move.san]), or [None] when the
    library rejects the move. *)
Class ChessEngine := {
  Board : Type;
  new_chess : Board;
  turn : Board → side;
  get : Board → jsstr → option piece;
  move : Board → move_request → option (Board * string)
}.

(** What the turn logic of the server relies on: a new game has white to
    move and every accepted move passes the turn to the other side. *)
Class ChessLaws (E : ChessEngine) := {
  new_chess_turn : turn new_chess = SideW;
  move_passes_turn b rq b' san :
    move b rq = Some (b', san) → turn b' ≠ turn b
}.

(** [game.time] when it is not [null]. *)
Record clock := Clock { white : Z; black : Z }.

#[global] Instance clock_eq_dec : EqDecision clock.
Proof. solve_decision. Defined.

Section Server.
Context {E : ChessEngine}.

(** An entry of [games]. *)
Record Game := MkGame {
  board : Board;
  players : gmap string color;
  mode : string;
  time : option clock;
  last_move_time : Z;
  move_list : list string
}.

(** The two in-place updates of a room that leave the rest of it alone. *)
Definition set_players (g : Game) (ps : gmap string color) : Game :=
  MkGame (board g) ps (mode g) (time g) (last_move_time g) (move_list g).

Definition set_clock (g : Game) (t : option clock) (now : Z) : Game :=
  MkGame (board g) (players g) (mode g) t now (move_list g).

(** ** Calls into socket.io *)

(** The events the server emits, with their payloads. *)
Inductive message :=
  | MFull (flag : bool)
  | MPlayer (c : color) (mode : string) (time : option clock)
  | MChat (text : string)
  | MMove (from to : Z * Z) (next_turn : color)
          (last_move : (Z * Z) * (Z * Z)) (time : option clock).

(** [socket.join(room)], [socket.emit(...)] and [io.to(room).emit(...)];
    [Throw] is an uncaught [TypeError], after which the handler makes no
    further call. *)
Inductive effect :=
  | SocketJoin (sid room : string)
  | Emit (sid : string) (m : message)
  | Broadcast (room : string) (m : message)
  | Throw.

(** A seat color, or [undefined], inside a template literal. *)
Definition color_text (c : option color) : string :=
  match c with
  | Some White => "white"
  | Some Black => "black"
  | None => "undefined"
  end.

(** ** Room creation: [app.get("/create/:mode")]

    [room_id] is the id drawn by [uuidv4().slice(0, 8)] and [now] is
    [Date.now()]. *)
Definition start_clock (mode : string) : option clock :=
  match mode_time mode with
  | Some start_time =>
      if decide (start_time = 0) then None
      else Some (Clock start_time start_time)
  | None => None
  end.

Definition create (mode room_id : string) (now : Z)
    (games : gmap string Game) : gmap string Game :=
  <[room_id := MkGame new_chess ∅ mode (start_clock mode) now []]> games.

(** ** [socket.on("join")]

    When [room_id] is no key of [games] but names an inherited member,
    [game] is that member: it passes the [!game] guard and has no
    [players], so [Object.keys(game.players)] throws. *)
Definition on_join (sid room_id : string) (games : gmap string Game)
    : gmap string Game * list effect :=
  match games !! room_id with
  | None =>
      if decide (room_id ∈ object_prototype)
      then (games, [SocketJoin sid room_id; Throw])
      else (games, [SocketJoin sid room_id; Emit sid (MFull true)])
  | Some game =>
      if decide (size (players game) < 2)%nat then
        let color :=
          if decide (White ∈ (map_to_list (players game)).*2)
          then Black else White in
        (<[room_id := set_players game (<[sid := color]> (players game))]>
           games,
         [SocketJoin sid room_id;
          Emit sid (MPlayer color (mode game) (time game));
          Broadcast room_id
            (MChat ("<i>" +:+ color_text (Some color)
                    +:+ " ist beigetreten</i>"))])
      else (games, [SocketJoin sid room_id; Emit sid (MFull true)])
  end.

(** ** [socket.on("chat")]

    For an inherited member as [game], [game.players[socket.id]] reads a
    property of [undefined] and throws. *)
Definition on_chat (sid room_id msg : string) (games : gmap string Game)
    : gmap string Game * list effect :=
  match games !! room_id with
  | None =>
      if decide (room_id ∈ object_prototype) then (games, [Throw])
      else (games, [])
  | Some game =>
      let color := players game !! sid in
      (games,
       [Broadcast room_id
          (MChat ("<b>" +:+ color_text color +:+ ":</b> " +:+ msg))])
  end.

(** ** [socket.on("move")] *)

(** [game.time[color] -= elapsed]. With no seat the assignment would
    write a property named ["undefined"] and leave both clocks alone. *)
Definition charge (t : clock) (c : option color) (elapsed : Z) : clock :=
  match c with
  | Some White => Clock (white t - elapsed) (black t)
  | Some Black => Clock (white t) (black t - elapsed)
  | None => t
  end.

(** The clock update of the handler: whole seconds since the last move
    are taken from the mover, and the time of the last move is reset. *)
Definition tick (game : Game) (c : option color) (now : Z) : Game :=
  match time game with
  | Some t =>
      let elapsed := (now - last_move_time game) `div` 1000 in
      set_clock game (Some (charge t c elapsed)) now
  | None => game
  end.

(** The promotion letter: ["q"], or the empty string [[]]. *)
Definition promo (b : Board) (uci_from uci_to : jsstr) : jsstr :=
  match get b uci_from with
  | Some piece =>
      if decide (ptype piece = Pawn) then
        if decide ((pcolor piece = SideW ∧ index uci_to 1 = Some (str "8"))
                   ∨ (pcolor piece = SideB ∧ index uci_to 1 = Some (str "1")))
        then str "q" else []
      else []
  | None => []
  end.

(** The object handed to [board.move]; [promo || undefined] is
    [undefined] for the empty string. *)
Definition translate (b : Board) (from to : Z * Z) : move_request :=
  let uci_from := xy_to_uci from in
  let uci_to := xy_to_uci to in
  let promo := promo b uci_from uci_to in
  MoveRequest uci_from uci_to (if decide (promo = []) then None else Some promo).

(** The handler; for an inherited member as [game], [game.board] is
    [undefined] and [game.players[socket.id]] throws. *)
Definition on_move (now : Z) (sid room_id : string) (from to : Z * Z)
    (games : gmap string Game) : gmap string Game * list effect :=
  match games !! room_id with
  | None =>
      if decide (room_id ∈ object_prototype) then (games, [Throw])
      else (games, [])
  | Some game =>
      let color := players game !! sid in
      if decide ((turn (board game) = SideW ∧ color ≠ Some White)
                 ∨ (turn (board game) = SideB ∧ color ≠ Some Black))
      then (games, [])
      else
        let game := tick game color now in
        match move (board game) (translate (board game) from to) with
        | Some (board', san) =>
            let game :=
              MkGame board' (players game) (mode game) (time game)
                     (last_move_time game) (move_list game ++ [san]) in
            let next_turn :=
              if decide (turn board' = SideW) then White else Black in
            (<[room_id := game]> games,
             [Broadcast room_id
                (MMove from to next_turn (from, to) (time game))])
        | None => (<[room_id := game]> games, [])
        end
  end.

(** ** [socket.on("disconnect")] *)

(** The body of the loop, for one entry of [games]. *)
Definition leave (sid room_id : string) (game : Game) : Game * list effect :=
  match players game !! sid with
  | Some c =>
      (set_players game (delete sid (players game)),
       [Broadcast room_id
          (MChat ("<i>" +:+ color_text (Some c) +:+ " hat verlassen</i>"))])
  | None => (game, [])
  end.

(** The loop over [Object.entries(games)]. Each room of the table gets
    the calls of its own turn of the loop; the order in which the calls
    to different rooms follow each other is the order in which the map
    is enumerated, which need not be the order of [Object.entries]. *)
Definition on_disconnect (sid : string) (games : gmap string Game)
    : gmap string Game * list effect :=
  (map_imap (λ room_id game, Some (leave sid room_id game).1) games,
   flat_map (λ e, (leave sid e.1 e.2).2) (map_to_list games)).

(** ** Sequences of socket events *)

Inductive event :=
  | EJoin (sid room_id : string)
  | EChat (sid room_id msg : string)
  | EMove (now : Z) (sid room_id : string) (from to : Z * Z)
  | EDisconnect (sid : string).

Definition step (ev : event) (games : gmap string Game)
    : gmap string Game * list effect :=
  match ev with
  | EJoin sid room_id => on_join sid room_id games
  | EChat sid room_id msg => on_chat sid room_id msg games
  | EMove now sid room_id from to => on_move now sid room_id from to games
  | EDisconnect sid => on_disconnect sid games
  end.

(** The room table after a sequence of events, with all the calls made. *)
Fixpoint run (evs : list event) (games : gmap string Game)
    : gmap string Game * list effect :=
  match evs with
  | [] => (games, [])
  | ev :: evs =>
      let (games1, out1) := step ev games in
      let (games2, out2) := run evs games1 in
      (games2, out1 ++ out2)
  end.

(** ** Page routes

    [app.get("/game/:room_id")], [app.get("/game")] and
    [app.get("/analyse/:room_id")]. The views are named; rendering them
    is the template engine's work. For a [room_id] that is no key of
    [games] but names an inherited member, [games[room_id]] is that
    member: it passes the [!games[room_id]] guard, and its [mode] and
    [move_list] are [undefined]. *)

(** A value handed to a view; [LJson] is the [JSON.stringify] text of an
    array of strings, kept as the array, and [LUndefined] is
    [undefined]. *)
Inductive local :=
  | LText (s : string)
  | LJson (l : list string)
  | LUndefined.

(** The first argument of [res.render]: the name of a view, or the
    member of [Object.prototype] found under a key, which is no name. *)
Inductive view :=
  | ViewName (name : string)
  | ViewMember (key : string).

Coercion ViewName : string >-> view.

(** [res.send], [res.redirect] and [res.render]. *)
Inductive response :=
  | Send (body : string)
  | Redirect (url : string)
  | Render (v : view) (locals : list (string * local)).

(** The [templates] object of [app.get("/game/:room_id")]. *)
Definition templates : gmap string string :=
  {[ "normal" := "game";
     "blitz" := "game_blitz";
     "rapid" := "game_rapid";
     "stopwatch" := "game_stopwatch";
     "analyse" := "game_analyse" ]}.

(** The [templates] object of [app.get("/game")]. *)
Definition templates_query : gmap string string :=
  {[ "normal" := "game";
     "blitz" := "game_blitz";
     "rapid" := "game_rapid";
     "bullet" := "game_bullet";
     "stopwatch" := "game_stopwatch";
     "analyse" := "game_analyse" ]}.

(** [templates[mode] || "game"]; [mode] is [None] for [undefined]. The
    views of the object are non-empty names, an inherited member is an
    object or a function, and all of these are truthy. *)
Definition template_for (templates : gmap string string) (mode : option string)
    : view :=
  match mode with
  | Some m =>
      match templates !! m with
      | Some name => ViewName name
      | None =>
          if decide (m ∈ object_prototype) then ViewMember m
          else ViewName "game"
      end
  | None => ViewName "game"
  end.

(** [app.get("/game/:room_id")] *)
Definition get_game (room_id : string) (games : gmap string Game) : response :=
  match games !! room_id with
  | None =>
      if decide (room_id ∈ object_prototype)
      then Render (template_for templates None) [("room_id", LText room_id)]
      else Send "Spiel existiert nicht!"
  | Some game =>
      Render (template_for templates (Some (mode game)))
             [("room_id", LText room_id)]
  end.

(** [app.get("/game")]; [room] is [req.query.room], [None] when the
    query has no such parameter. *)
Definition get_game_query (room : option string) (games : gmap string Game)
    : response :=
  match room with
  | None => Redirect "/"
  | Some room_id =>
      if decide (room_id = EmptyString) then Redirect "/"
      else
        match games !! room_id with
        | None =>
            if decide (room_id ∈ object_prototype)
            then Render (template_for templates_query None)
                        [("room_id", LText room_id); ("game_id", LText room_id)]
            else Render "game_not_found" [("room_id", LText room_id)]
        | Some game =>
            Render (template_for templates_query (Some (mode game)))
                   [("room_id", LText room_id); ("game_id", LText room_id)]
        end
  end.

(** [app.get("/analyse/:room_id")] *)
Definition get_analyse (room_id : string) (games : gmap string Game)
    : response :=
  match games !! room_id with
  | None =>
      if decide (room_id ∈ object_prototype)
      then Render "analyse" [("moves", LUndefined); ("room_id", LText room_id)]
      else Send "Spiel existiert nicht!"
  | Some game =>
      Render "analyse"
             [("moves", LJson (move_list game)); ("room_id", LText room_id)]
  end.

End Server.

(** ** What the properties speak of *)

Section Observations.
Context {E : ChessEngine}.
Implicit Types (games : gmap string Game) (g : Game).
Implicit Types (sid room_id : string) (ps : gmap string color).

(** The messages a handler sent to one socket with [socket.emit]. *)
Definition replies sid (out : list effect) : list message :=
  omap (λ e, match e with
             | Emit s m => if decide (s = sid) then Some m else None
             | _ => None
             end) out.

(** The calls a handler made that address a room. *)
Definition broadcasts room_id (out : list effect) : list message :=
  omap (λ e, match e with
             | Broadcast r m => if decide (r = room_id) then Some m else None
             | _ => None
             end) out.

(** The seat invariant: at most two seats, and no color held twice. *)
Definition seats_ok ps : Prop :=
  (size ps ≤ 2)%nat
  ∧ ∀ s1 s2 col, ps !! s1 = Some col → ps !! s2 = Some col → s1 = s2.

Definition room_ok room_id games : Prop :=
  ∀ g, games !! room_id = Some g → seats_ok (players g).

(** The side a seat color plays. *)
Definition side_of (c : color) : side :=
  match c with White => SideW | Black => SideB end.

Definition opposite (c : side) : side :=
  match c with SideW => SideB | SideB => SideW end.

(** The sender holds a seat in the room and the seat's color is the side
    to move. *)
Definition may_move g sid : Prop :=
  match players g !! sid with
  | Some c => side_of c = turn (board g)
  | None => False
  end.

#[global] Instance may_move_dec g sid : Decision (may_move g sid).
Proof. unfold may_move. destruct (players g !! sid); apply _. Defined.

(** A move is accepted in a room when its sender may move and the
    engine accepts the translated move. *)
Definition accepted g sid (src dst : Z * Z) : Prop :=
  may_move g sid ∧ is_Some (move (board g) (translate (board g) src dst)).

(** A move is applied when the room's board has become the board the
    engine answered and the move's notation has been added at the end of
    the history. *)
Definition applied g g' (src dst : Z * Z) : Prop :=
  ∃ b' san, move (board g) (translate (board g) src dst) = Some (b', san)
    ∧ board g' = b' ∧ move_list g' = move_list g ++ [san].

(** The notation of the move an event gets accepted in a room, if it
    does. *)
Definition accepted_san (ev : event) room_id games : option string :=
  match ev with
  | EMove now sid r src dst =>
      if decide (r = room_id) then
        match games !! r with
        | Some g =>
            if decide (may_move g sid)
            then snd <$> move (board g) (translate (board g) src dst)
            else None
        | None => None
        end
      else None
  | _ => None
  end.

(** The notations of the moves of a sequence of events that are accepted
    in a room, in the order of the events. *)
Fixpoint accepted_moves (evs : list event) room_id games : list string :=
  match evs with
  | [] => []
  | ev :: evs =>
      option_list (accepted_san ev room_id games)
      ++ accepted_moves evs room_id (step ev games).1
  end.

(** The squares of the board by name, a1 to h8. *)
Definition algebraic_squares : list jsstr :=
  flat_map (λ f, (λ r, [f; r]) <$> str "12345678") (str "abcdefgh").

(** What an event can do to a room of the table: leave it as it is,
    seat a joiner, apply or reject a move of the side to move, or free
    the seat of a connection that left. *)
Inductive room_step (room_id : string) (g : Game) : event → Game → Prop :=
  | room_same ev : room_step room_id g ev g
  | room_join sid :
      (size (players g) < 2)%nat →
      room_step room_id g (EJoin sid room_id)
        (set_players g
           (<[sid := if decide (White ∈ (map_to_list (players g)).*2)
                     then Black else White]> (players g)))
  | room_move now sid src dst b' san :
      may_move g sid →
      move (board g) (translate (board g) src dst) = Some (b', san) →
      room_step room_id g (EMove now sid room_id src dst)
        (MkGame b' (players g) (mode g)
           (time (tick g (players g !! sid) now))
           (last_move_time (tick g (players g !! sid) now))
           (move_list g ++ [san]))
  | room_rejected now sid src dst :
      may_move g sid →
      move (board g) (translate (board g) src dst) = None →
      room_step room_id g (EMove now sid room_id src dst)
        (tick g (players g !! sid) now)
  | room_leave sid c :
      players g !! sid = Some c →
      room_step room_id g (EDisconnect sid)
        (set_players g (delete sid (players g))).

(** The times of the move events of a sequence do not go back, and do
    not go back behind [t]. *)
Fixpoint timestamps_from (t : Z) (evs : list event) : Prop :=
  match evs with
  | [] => True
  | EMove now _ _ _ _ :: evs => t ≤ now ∧ timestamps_from now evs
  | _ :: evs => timestamps_from t evs
  end.

(** The room an event names, if it names one. *)
Definition event_room (ev : event) : option string :=
  match ev with
  | EJoin _ room_id | EChat _ room_id _ | EMove _ _ room_id _ _ => Some room_id
  | EDisconnect _ => None
  end.

(** The connection an event comes from. *)
Definition event_sender (ev : event) : string :=
  match ev with
  | EJoin sid _ | EChat sid _ _ | EMove _ sid _ _ _ | EDisconnect sid => sid
  end.

(** The integers a JavaScript number holds exactly. *)
Definition safe_integer (n : Z) : Prop := - 2 ^ 53 < n < 2 ^ 53.

(** The other seat color. *)
Definition other_color (c : color) : color :=
  match c with White => Black | Black => White end.

(** The bound on the time of the last move after an event. *)
Definition next_time (t : Z) (ev : event) : Z :=
  match ev with EMove now _ _ _ _ => now | _ => t end.

(** The clocks of [g'] against those of [g]: neither side has gained
    time, the time of the last move has not gone back, and the seconds
    taken from both sides together are covered by the time between the
    two last moves. *)
Definition clock_le (g g' : Game) : Prop :=
  ∀ t, time g = Some t →
    ∃ t', time g' = Some t'
      ∧ white t' ≤ white t ∧ black t' ≤ black t
      ∧ last_move_time g ≤ last_move_time g'
      ∧ 1000 * ((white t - white t') + (black t - black t'))
        ≤ last_move_time g' - last_move_time g.

End Observations.

(** ** A sample engine

    A small stand-in for chess.js, used to run the server on concrete
    inputs: the usual starting position, in which only pawn advances
    (one square, two from the starting rank, with promotion to a queen on
    the last rank) are accepted. Every move it accepts from the starting
    position is a legal chess move, and its notation is the one chess.js
    gives. *)
Module Sample.

Record position := Position {
  to_move : side;
  squares : gmap (Z * Z) piece
}.

(** A square name as (file, rank) indices, when it names a square. *)
Definition parse (s : jsstr) : option (Z * Z) :=
  match s with
  | [f; r] =>
      if decide (97 ≤ f ≤ 104 ∧ 49 ≤ r ≤ 56) then Some (f - 97, r - 49)
      else None
  | _ => None
  end.

Definition text (s : jsstr) : string :=
  string_of_list_ascii ((λ u, ascii_of_nat (Z.to_nat u)) <$> s).

Definition back_rank : list piece_type :=
  [Rook; Knight; Bishop; Queen; King; Bishop; Knight; Rook].

Definition rank_of (r : Z) (c : side) (ts : list piece_type)
    : list (Z * Z * piece) :=
  imap (λ i t, (Z.of_nat i, r, Piece t c)) ts.

Definition start : position :=
  Position SideW
    (list_to_map (rank_of 0 SideW back_rank ++ rank_of 1 SideW (replicate 8 Pawn)
                  ++ rank_of 6 SideB (replicate 8 Pawn)
                  ++ rank_of 7 SideB back_rank)).

Definition piece_at (p : position) (s : jsstr) : option piece :=
  match parse s with
  | Some sq => squares p !! sq
  | None => None
  end.

Definition advance (p : position) (rq : move_request)
    : option (position * string) :=
  match parse (from rq), parse (to rq) with
  | Some src, Some dst =>
      match squares p !! src with
      | Some pc =>
          let dir := if decide (to_move p = SideW) then 1 else -1 in
          let home := if decide (to_move p = SideW) then 1 else 6 in
          let last := if decide (to_move p = SideW) then 7 else 0 in
          if decide (pcolor pc = to_move p ∧ ptype pc = Pawn
                     ∧ dst.1 = src.1 ∧ squares p !! dst = None
                     ∧ (dst.2 = src.2 + dir
                        ∨ (src.2 = home ∧ dst.2 = src.2 + 2 * dir
                           ∧ squares p !! (src.1, src.2 + dir) = None)))
          then
            if decide (dst.2 = last) then
              if decide (promotion rq = Some (str "q")) then
                Some (Position (opposite (to_move p))
                        (<[dst := Piece Queen (to_move p)]>
                           (delete src (squares p))),
                      text (to rq) +:+ "=Q")
              else None
            else
              Some (Position (opposite (to_move p))
                      (<[dst := pc]> (delete src (squares p))),
                    text (to rq))
          else None
      | None => None
      end
  | _, _ => None
  end.

Definition engine : ChessEngine := {|
  Board := position;
  new_chess := start;
  turn := to_move;
  get := piece_at;
  move := advance
|}.

(** A blitz room ["r1"] created at time 0, then joined by ["alice"] and
    by ["bob"]. *)
Definition fresh : gmap string (@Game engine) :=
  create (E := engine) "blitz" "r1" 0 ∅.

Definition two_seats : gmap string (@Game engine) :=
  (run (E := engine) [EJoin "alice" "r1"; EJoin "bob" "r1"] fresh).1.

Definition seated : @Game engine :=
  MkGame (E := engine) start {["alice" := White; "bob" := Black]} "blitz"
         (Some (Clock 300 300)) 0 [].

(** The same room with only ["alice"] seated, as white. *)
Definition alone : @Game engine :=
  MkGame (E := engine) start {["alice" := White]} "blitz"
         (Some (Clock 300 300)) 0 [].

(** A position with a white pawn on a7 and a black pawn on h2. *)
Definition endgame : position :=
  Position SideW (list_to_map [((0, 6), Piece Pawn SideW);
                               ((7, 1), Piece Pawn SideB);
                               ((4, 0), Piece King SideW);
                               ((4, 7), Piece King SideB)]).

Definition late : @Game engine :=
  MkGame (E := engine) endgame {["alice" := White; "bob" := Black]} "normal"
         None 0 [].

(** The scenario of a first move and an out-of-turn reply: e2 to e4 by
    white after 5 seconds, then a move by white again, then e7 to e5 by
    black. *)
Definition opening : list event :=
  [EJoin "alice" "r1"; EJoin "bob" "r1";
   EMove 5000 "alice" "r1" (4, 1) (4, 3);
   EMove 6000 "alice" "r1" (3, 1) (3, 3);
   EChat "bob" "r1" "hi";
   EMove 9000 "bob" "r1" (4, 6) (4, 4)].

(** The room ["r1"] as it is created. *)
Definition created : @Game engine :=
  MkGame (E := engine) start ∅ "blitz" (Some (Clock 300 300)) 0 [].

(** The table with a second room, ["r2"], of mode rapid. *)
Definition two_rooms : gmap string (@Game engine) :=
  create (E := engine) "rapid" "r2" 0 two_seats.

(** A table with one room of mode bullet. *)
Definition bullet_table : gmap string (@Game engine) :=
  create (E := engine) "bullet" "b1" 0 ∅.

End Sample.

(** ** Properties of the handlers *)

Section Properties.
Context {E : ChessEngine}.
Implicit Types (games : gmap string Game) (g : Game).
Implicit Types (sid room_id msg : string) (ps : gmap string color).

(** *** Room creation *)

Lemma create_lookup (m : string) room_id now games :
  create m room_id now games !! room_id
  = Some (MkGame new_chess ∅ m (start_clock m) now []).
Proof. unfold create. by rewrite lookup_insert_eq. Qed.

(** C4: room creation always yields a room under the new id, and the
    room's clock is a function of the mode alone: 300 seconds a side for
    blitz, 600 a side for rapid, and no clock for normal, analyse and
    stopwatch. *)
Theorem create_seeds_clock_from_mode room_id now games :
  (∀ m : string, ∃ g, create m room_id now games !! room_id = Some g
                      ∧ mode g = m ∧ time g = start_clock m)
  ∧ time <$> create "blitz" room_id now games !! room_id
    = Some (Some (Clock 300 300))
  ∧ time <$> create "rapid" room_id now games !! room_id
    = Some (Some (Clock 600 600))
  ∧ time <$> create "normal" room_id now games !! room_id = Some None
  ∧ time <$> create "analyse" room_id now games !! room_id = Some None
  ∧ time <$> create "stopwatch" room_id now games !! room_id = Some None.
Proof.
  split.
  - intros m. eexists. rewrite create_lookup. done.
  - rewrite !create_lookup. done.
Qed.

(** *** Events on a room id that is not in the table *)

(** C10: a chat or a move naming a room id that is not in the table
    changes nothing and makes no call into socket.io (nothing is
    broadcast, nothing is sent back) when the id names no inherited
    member; when it does, as ["constructor"] does, the guard for a
    missing room is passed and the handler ends in an uncaught
    [TypeError]. *)
Theorem unknown_room_chat_move_outcome
    sid room_id msg now (src dst : Z * Z) games :
  games !! room_id = None →
  (room_id ∉ object_prototype →
   on_chat sid room_id msg games = (games, [])
   ∧ on_move now sid room_id src dst games = (games, []))
  ∧ (room_id ∈ object_prototype →
     on_chat sid room_id msg games = (games, [Throw])
     ∧ on_move now sid room_id src dst games = (games, [Throw])).
Proof.
  intros Hnone. unfold on_chat, on_move. rewrite Hnone.
  split; intros Hin; [by rewrite decide_False|by rewrite decide_True].
Qed.

(** C5, as the code has it: a join naming a room id that is not in the
    table and names no inherited member leaves the table as it is and
    answers the joiner with the [full] signal, flag [true]; a join on a
    room with two seats taken gets the very same answer. *)
Theorem join_unknown_room_signals_full sid room_id games :
  games !! room_id = None →
  room_id ∉ object_prototype →
  on_join sid room_id games
  = (games, [SocketJoin sid room_id; Emit sid (MFull true)])
  ∧ ∀ other g, games !! other = Some g → size (players g) = 2%nat →
      replies sid (on_join sid other games).2
      = replies sid (on_join sid room_id games).2.
Proof.
  intros Hnone Hown. unfold on_join. rewrite Hnone, decide_False by done.
  split; [done|].
  intros other g Hg Hsz. rewrite Hg, Hsz.
  rewrite decide_False by lia. done.
Qed.

(** A join naming an inherited member that is no room: the socket is
    subscribed, then the handler throws; no [full] signal is sent. *)
Lemma join_inherited_throws sid room_id games :
  games !! room_id = None →
  room_id ∈ object_prototype →
  on_join sid room_id games = (games, [SocketJoin sid room_id; Throw]).
Proof.
  intros Hnone Hin. unfold on_join. by rewrite Hnone, decide_True.
Qed.

(** *** Chat *)

(** C7, as the code has it: a chat on a room of the table changes no
    room and is broadcast to the room once, the text unchanged behind a
    label: the sender's color or, for a sender without a seat, the word
    [undefined]. *)
Theorem chat_broadcast_labelled sid room_id msg games g :
  games !! room_id = Some g →
  ∃ text, on_chat sid room_id msg games
          = (games, [Broadcast room_id (MChat text)])
    ∧ (players g !! sid = Some White → text = "<b>white:</b> " +:+ msg)
    ∧ (players g !! sid = Some Black → text = "<b>black:</b> " +:+ msg)
    ∧ (players g !! sid = None → text = "<b>undefined:</b> " +:+ msg).
Proof.
  intros Hg. unfold on_chat. rewrite Hg. eexists. split; [done|].
  repeat split; intros ->; done.
Qed.

(** *** A second join by the only seated connection *)

(** C9: when the seats of a room are exactly one connection bound to
    white, a join by that same connection is served like a join to a
    room with a free seat, not refused: the connection is rebound to
    black, the seats become that single binding, and nobody holds
    white. *)
Theorem rejoin_rebinds_to_black c room_id games g :
  games !! room_id = Some g →
  players g = {[c := White]} →
  on_join c room_id games
  = (<[room_id := set_players g {[c := Black]}]> games,
     [SocketJoin c room_id;
      Emit c (MPlayer Black (mode g) (time g));
      Broadcast room_id (MChat "<i>black ist beigetreten</i>")])
  ∧ (∃ g', (on_join c room_id games).1 !! room_id = Some g'
       ∧ players g' = {[c := Black]}
       ∧ ∀ sid, players g' !! sid ≠ Some White)
  ∧ replies c (on_join c room_id games).2 ≠ [MFull true]
  ∧ (on_join c room_id games).1 ≠ games.
Proof.
  intros Hg Hps.
  assert (Hjoin : on_join c room_id games
    = (<[room_id := set_players g {[c := Black]}]> games,
       [SocketJoin c room_id;
        Emit c (MPlayer Black (mode g) (time g));
        Broadcast room_id (MChat "<i>black ist beigetreten</i>")])).
  { unfold on_join. rewrite Hg, Hps, map_size_singleton, map_to_list_singleton.
    simpl. by rewrite insert_singleton_eq. }
  rewrite Hjoin. split; [done|]. split; [|split].
  - eexists. simpl. rewrite lookup_insert_eq. split; [done|]. simpl.
    split; [done|]. intros sid. destruct (decide (sid = c)) as [->|Hne].
    + by rewrite lookup_singleton_eq.
    + by rewrite lookup_singleton_ne.
  - simpl. rewrite decide_True by done. discriminate.
  - simpl. intros Heq.
    assert (Hl : games !! room_id = Some (set_players g {[c := Black]})).
    { rewrite <- Heq. by rewrite lookup_insert_eq. }
    rewrite Hg in Hl. injection Hl as Hl. rewrite Hl in Hps. simpl in Hps.
    assert (Hc : ({[c := Black]} : gmap string color) !! c = Some White).
    { rewrite Hps. by rewrite lookup_singleton_eq. }
    rewrite lookup_singleton_eq in Hc. discriminate.
Qed.

(** *** Seats *)

Lemma two_keys_size ps s1 s2 :
  s1 ≠ s2 → is_Some (ps !! s1) → is_Some (ps !! s2) → (2 ≤ size ps)%nat.
Proof.
  intros Hne H1 H2.
  pose proof (map_size_delete_Some s1 ps H1) as Hdel.
  assert (Hnz : size (delete s1 ps) ≠ 0%nat).
  { apply (map_size_ne_0_lookup_2 _ s2). by rewrite lookup_delete_ne. }
  pose proof (map_size_ne_0_lookup_2 ps s1 H1). lia.
Qed.

Lemma includes_white ps :
  White ∈ (map_to_list ps).*2 ↔ ∃ s, ps !! s = Some White.
Proof.
  rewrite list_elem_of_fmap. split.
  - intros [[s c] [Hc Hin]]. simpl in Hc. subst c.
    exists s. by apply elem_of_map_to_list.
  - intros [s Hs]. exists (s, White). split; [done|].
    by apply elem_of_map_to_list.
Qed.

Lemma seats_ok_empty : seats_ok ∅.
Proof.
  split; [rewrite map_size_empty; lia|].
  intros s1 s2 col H1. by rewrite lookup_empty in H1.
Qed.

(** The seat a join hands out keeps the invariant. *)
Lemma seats_ok_join ps sid :
  seats_ok ps → (size ps < 2)%nat →
  seats_ok (<[sid := if decide (White ∈ (map_to_list ps).*2)
                     then Black else White]> ps).
Proof.
  intros [Hsz Hinj] Hlt. split.
  - rewrite map_size_insert. destruct (ps !! sid); simpl; lia.
  - assert (Hfresh : ∀ s col,
      s ≠ sid → ps !! s = Some col →
      col ≠ (if decide (White ∈ (map_to_list ps).*2) then Black else White)).
    { intros s col Hne Hs. destruct (decide _) as [Hw|Hw].
      - intros ->. apply includes_white in Hw as [k Hk].
        assert (k ≠ s) by (intros ->; congruence).
        assert (2 ≤ size ps)%nat by (apply (two_keys_size ps k s); eauto).
        lia.
      - intros ->. apply Hw, includes_white. eauto. }
    intros s1 s2 col H1 H2.
    destruct (decide (s1 = sid)) as [->|Hne1];
      destruct (decide (s2 = sid)) as [->|Hne2]; [done| | |].
    + rewrite lookup_insert_eq in H1. rewrite lookup_insert_ne in H2 by done.
      injection H1 as <-. by destruct (Hfresh _ _ Hne2 H2).
    + rewrite lookup_insert_eq in H2. rewrite lookup_insert_ne in H1 by done.
      injection H2 as <-. by destruct (Hfresh _ _ Hne1 H1).
    + rewrite lookup_insert_ne in H1, H2 by done. eauto.
Qed.

Lemma seats_ok_delete ps sid : seats_ok ps → seats_ok (delete sid ps).
Proof.
  intros [Hsz Hinj]. split.
  - rewrite map_size_delete. destruct (ps !! sid); simpl; lia.
  - intros s1 s2 col [_ H1]%lookup_delete_Some [_ H2]%lookup_delete_Some. eauto.
Qed.

(** Two seats with no color held twice are a white and a black seat. *)
Lemma seats_ok_two ps :
  seats_ok ps → size ps = 2%nat →
  ∃ s1 s2, s1 ≠ s2 ∧ ps !! s1 = Some White ∧ ps !! s2 = Some Black.
Proof.
  intros [_ Hinj] Hsz.
  destruct (map_size_ne_0_lookup_1 ps) as [k1 H1]; [lia|].
  destruct (map_size_ne_0_lookup_1 (delete k1 ps)) as [k2 [c2 H2]].
  { rewrite map_size_delete_Some by done. lia. }
  apply lookup_delete_Some in H2 as [Hne H2]. destruct H1 as [c1 H1].
  destruct c1, c2.
  - destruct Hne. eauto.
  - exists k1, k2. done.
  - exists k2, k1. done.
  - destruct Hne. eauto.
Qed.

(** Every handler keeps the seat invariant of every room. *)
Lemma leave_players sid room_id g :
  players (leave sid room_id g).1 = delete sid (players g).
Proof.
  unfold leave. destruct (players g !! sid) eqn:Hs; simpl; [done|].
  by rewrite delete_id.
Qed.

Lemma step_room_ok ev room_id games :
  room_ok room_id games → room_ok room_id (step ev games).1.
Proof.
  intros Hok g'. destruct ev as [sid r|sid r msg|now sid r src dst|sid]; simpl.
  - unfold on_join. destruct (games !! r) as [g|] eqn:Hg;
      [|case_decide; by apply Hok].
    destruct (decide (size (players g) < 2)%nat) as [Hlt|_]; [|by apply Hok].
    simpl. destruct (decide (r = room_id)) as [->|Hne].
    + rewrite lookup_insert_eq. intros [= <-]. simpl.
      apply seats_ok_join; [by apply Hok|done].
    + rewrite lookup_insert_ne by done. apply Hok.
  - unfold on_chat. destruct (games !! r); [|case_decide]; apply Hok.
  - unfold on_move. destruct (games !! r) as [g|] eqn:Hg;
      [|case_decide; by apply Hok].
    destruct (decide _) as [_|_]; [by apply Hok|].
    assert (Htick : players (tick g (players g !! sid) now) = players g).
    { unfold tick. by destruct (time g). }
    destruct (move _ _) as [[b' san]|]; simpl;
      (destruct (decide (r = room_id)) as [->|Hne];
       [rewrite lookup_insert_eq; intros [= <-]; simpl; rewrite ?Htick;
        by apply Hok
       |rewrite lookup_insert_ne by done; apply Hok]).
  - unfold on_disconnect. simpl. rewrite map_lookup_imap.
    destruct (games !! room_id) as [g|] eqn:Hg; simpl; [|done].
    intros [= <-]. rewrite leave_players. apply seats_ok_delete. by apply Hok.
Qed.

Lemma run_room_ok evs room_id games :
  room_ok room_id games → room_ok room_id (run evs games).1.
Proof.
  revert games. induction evs as [|ev evs IH]; intros games Hok; [done|].
  simpl. pose proof (step_room_ok ev room_id games Hok) as Hstep.
  destruct (step ev games) as [games1 out1]. simpl in Hstep.
  specialize (IH games1 Hstep).
  destruct (run evs games1) as [games2 out2]. done.
Qed.

Lemma create_room_ok (m : string) room_id now games :
  room_ok room_id (create m room_id now games).
Proof.
  intros g. rewrite create_lookup. intros [= <-]. apply seats_ok_empty.
Qed.

(** C2: after any sequence of events on a newly created room (joins, and
    chats, moves and disconnects as well), the room has at most two
    seats, two seats are a white seat and a black seat held by different
    connections, and a join that finds two seats taken leaves the whole
    table as it is and only sends the [full] signal to the joiner. *)
Theorem join_keeps_two_distinct_seats
    (evs : list event) (m : string) room_id now games0 g :
  (run evs (create m room_id now games0)).1 !! room_id = Some g →
  (size (players g) ≤ 2)%nat
  ∧ (size (players g) = 2%nat →
     (∃ s1 s2, s1 ≠ s2 ∧ players g !! s1 = Some White
               ∧ players g !! s2 = Some Black)
     ∧ ∀ sid,
         on_join sid room_id (run evs (create m room_id now games0)).1
         = ((run evs (create m room_id now games0)).1,
            [SocketJoin sid room_id; Emit sid (MFull true)])).
Proof.
  intros Hg.
  pose proof (run_room_ok evs room_id _ (create_room_ok m room_id now games0)
                g Hg) as Hok.
  split; [apply Hok|]. intros Hsz. split; [by apply seats_ok_two|].
  intros sid. unfold on_join. rewrite Hg, Hsz. by rewrite decide_False by lia.
Qed.

(** *** Disconnect *)

Lemma broadcasts_app room_id (o1 o2 : list effect) :
  broadcasts room_id (o1 ++ o2) = broadcasts room_id o1 ++ broadcasts room_id o2.
Proof. apply omap_app. Qed.

Lemma leave_broadcasts sid room_id g :
  broadcasts room_id (leave sid room_id g).2
  = match players g !! sid with
    | Some c =>
        [MChat ("<i>" +:+ color_text (Some c) +:+ " hat verlassen</i>")]
    | None => []
    end.
Proof.
  unfold leave. destruct (players g !! sid); simpl; [|done].
  by rewrite decide_True.
Qed.

Lemma leave_broadcasts_other sid r room_id g :
  r ≠ room_id → broadcasts room_id (leave sid r g).2 = [].
Proof.
  intros Hne. unfold leave. destruct (players g !! sid); simpl; [|done].
  by rewrite decide_False.
Qed.

Lemma entries_broadcasts_absent sid room_id (l : list (string * Game)) :
  room_id ∉ l.*1 →
  broadcasts room_id (flat_map (λ e, (leave sid e.1 e.2).2) l) = [].
Proof.
  induction l as [|[r g] l IH]; intros Hnot; [done|].
  simpl in *. apply not_elem_of_cons in Hnot as [Hne Hnot].
  rewrite broadcasts_app, leave_broadcasts_other by done. by apply IH.
Qed.

Lemma entries_broadcasts sid room_id g (l : list (string * Game)) :
  NoDup l.*1 → (room_id, g) ∈ l →
  broadcasts room_id (flat_map (λ e, (leave sid e.1 e.2).2) l)
  = broadcasts room_id (leave sid room_id g).2.
Proof.
  induction l as [|[r g0] l IH]; intros Hnd Hin.
  { by apply elem_of_nil in Hin. }
  simpl in *. apply NoDup_cons in Hnd as [Hr Hnd].
  rewrite broadcasts_app. apply elem_of_cons in Hin as [[= <- <-]|Hin].
  - by rewrite entries_broadcasts_absent, app_nil_r.
  - assert (r ≠ room_id).
    { intros ->. apply Hr, list_elem_of_fmap. by exists (room_id, g). }
    rewrite leave_broadcasts_other by done. by apply IH.
Qed.

Lemma entries_only_broadcast sid (l : list (string * Game)) e :
  e ∈ flat_map (λ e, (leave sid e.1 e.2).2) l →
  ∃ r g c, (r, g) ∈ l ∧ players g !! sid = Some c
    ∧ e = Broadcast r
            (MChat ("<i>" +:+ color_text (Some c) +:+ " hat verlassen</i>")).
Proof.
  induction l as [|[r g] l IH]; simpl; intros Hin.
  { by apply elem_of_nil in Hin. }
  apply elem_of_app in Hin as [Hin|Hin].
  - unfold leave in Hin. destruct (players g !! sid) as [c|] eqn:Hc; simpl in Hin.
    + apply list_elem_of_singleton in Hin. exists r, g, c.
      split; [apply elem_of_cons; by left|done].
    + by apply elem_of_nil in Hin.
  - destruct (IH Hin) as (r' & g' & c & Hl & Hc & He).
    exists r', g', c. split; [apply elem_of_cons; by right|done].
Qed.

(** C6: on a disconnect, a room in which the connection holds a seat
    loses that seat and nothing else (board, clock, time of the last move,
    history, mode and every other seat stay as they were) and is sent one
    notification naming the color that left; a room in which it holds no
    seat is left as it is and is sent nothing. The handler makes no
    other call: each one is such a notification to a room where the
    connection was seated. *)
Theorem disconnect_frees_own_seat sid room_id games g :
  games !! room_id = Some g →
  ∃ g', (on_disconnect sid games).1 !! room_id = Some g'
    ∧ board g' = board g ∧ time g' = time g
    ∧ last_move_time g' = last_move_time g
    ∧ move_list g' = move_list g ∧ mode g' = mode g
    ∧ players g' !! sid = None
    ∧ (∀ s, s ≠ sid → players g' !! s = players g !! s)
    ∧ (∀ c, players g !! sid = Some c →
         broadcasts room_id (on_disconnect sid games).2
         = [MChat ("<i>" +:+ color_text (Some c) +:+ " hat verlassen</i>")])
    ∧ (players g !! sid = None →
         g' = g ∧ broadcasts room_id (on_disconnect sid games).2 = [])
    ∧ (∀ e, e ∈ (on_disconnect sid games).2 →
         ∃ r gr c, games !! r = Some gr ∧ players gr !! sid = Some c
           ∧ e = Broadcast r
                   (MChat ("<i>" +:+ color_text (Some c)
                           +:+ " hat verlassen</i>"))).
Proof.
  intros Hg. exists (leave sid room_id g).1. unfold on_disconnect. simpl.
  rewrite map_lookup_imap, Hg. simpl. split; [done|].
  assert (Hout : broadcasts room_id
            (flat_map (λ e, (leave sid e.1 e.2).2) (map_to_list games))
          = broadcasts room_id (leave sid room_id g).2).
  { apply entries_broadcasts; [apply NoDup_fst_map_to_list|].
    by apply elem_of_map_to_list. }
  rewrite Hout, leave_broadcasts.
  split_and!; try (unfold leave; by destruct (players g !! sid)).
  - rewrite leave_players. by rewrite lookup_delete_eq.
  - intros s Hne. rewrite leave_players. by rewrite lookup_delete_ne.
  - by intros c ->.
  - intros e Hin. apply entries_only_broadcast in Hin
      as (r & gr & c & Hl & Hc & He).
    exists r, gr, c. split; [by apply elem_of_map_to_list|done].
Qed.

(** *** Translation of a move *)

Lemma number_to_string_rank (y : Z) :
  0 ≤ y < 8 → number_to_string (y + 1) = [49 + y].
Proof.
  intros Hy.
  assert (Hc : y = 0 ∨ y = 1 ∨ y = 2 ∨ y = 3 ∨ y = 4 ∨ y = 5 ∨ y = 6 ∨ y = 7)
    by lia.
  destruct Hc as [->|[->|[->|[->|[->|[->|[->| ->]]]]]]]; reflexivity.
Qed.

Lemma to_double_exact (n : Z) : - 2 ^ 53 ≤ n ≤ 2 ^ 53 → to_double n = n.
Proof.
  intros Hn. unfold to_double.
  destruct (decide (Z.abs n < 2 ^ 53)) as [_|Hbig]; [done|].
  assert (Hcases : n = 2 ^ 53 ∨ n = - 2 ^ 53) by lia.
  destruct Hcases as [-> | ->]; reflexivity.
Qed.

Lemma xy_to_uci_square (x y : Z) :
  0 ≤ x < 8 → 0 ≤ y < 8 → xy_to_uci (x, y) = [97 + x; 49 + y].
Proof.
  intros Hx Hy. unfold xy_to_uci, fromCharCode. simpl fst. simpl snd.
  change (Z.of_nat (nat_of_ascii "a")) with 97.
  rewrite !to_double_exact by lia.
  rewrite number_to_string_rank by done.
  by rewrite Z.mod_small by lia.
Qed.

Lemma square_algebraic (x y : Z) :
  0 ≤ x < 8 → 0 ≤ y < 8 → [97 + x; 49 + y] ∈ algebraic_squares.
Proof.
  intros Hx Hy.
  assert (Hc : x = 0 ∨ x = 1 ∨ x = 2 ∨ x = 3 ∨ x = 4 ∨ x = 5 ∨ x = 6 ∨ x = 7)
    by lia.
  assert (Hd : y = 0 ∨ y = 1 ∨ y = 2 ∨ y = 3 ∨ y = 4 ∨ y = 5 ∨ y = 6 ∨ y = 7)
    by lia.
  destruct Hc as [->|[->|[->|[->|[->|[->|[->| ->]]]]]]];
    destruct Hd as [->|[->|[->|[->|[->|[->|[->| ->]]]]]]];
    apply (bool_decide_unpack _); vm_compute; exact I.
Qed.

Example xy_to_uci_a1 : xy_to_uci (0, 0) = str "a1".
Proof. reflexivity. Qed.

Example xy_to_uci_e2 : xy_to_uci (4, 1) = str "e2".
Proof. reflexivity. Qed.

Example xy_to_uci_h8 : xy_to_uci (7, 7) = str "h8".
Proof. reflexivity. Qed.

(** Outside the board the text is still produced, and its second unit is
    then not the rank: index 9 gives the two digits of 10. *)
Example xy_to_uci_off_board : xy_to_uci (0, 9) = str "a10".
Proof. reflexivity. Qed.

(** The promotion letter for a destination on the board. *)
Lemma promo_on_board (b : Board) (uci_from : jsstr) (tx ty : Z) :
  0 ≤ ty < 8 →
  promo b uci_from [97 + tx; 49 + ty] = str "q"
  ↔ ∃ pc, get b uci_from = Some pc ∧ ptype pc = Pawn
      ∧ ((pcolor pc = SideW ∧ ty = 7) ∨ (pcolor pc = SideB ∧ ty = 0)).
Proof.
  intros Hy. unfold promo.
  assert (H8 : index [97 + tx; 49 + ty] 1 = Some (str "8") ↔ ty = 7).
  { change (str "8") with [56]. unfold index. simpl.
    split; [intros [= Heq]; lia|intros ->; done]. }
  assert (H1 : index [97 + tx; 49 + ty] 1 = Some (str "1") ↔ ty = 0).
  { change (str "1") with [49]. unfold index. simpl.
    split; [intros [= Heq]; lia|intros ->; done]. }
  destruct (get b uci_from) as [pc|]; [|split; [done|by intros (? & ? & _)]].
  destruct (decide (ptype pc = Pawn)) as [Hp|Hp].
  - destruct (decide _) as [Hc|Hc].
    + split; [intros _|done]. exists pc. split; [done|]. split; [done|].
      rewrite H8, H1 in Hc. done.
    + split; [done|]. intros (pc' & [= <-] & _ & Hc'). destruct Hc.
      rewrite H8, H1. done.
  - split; [done|]. intros (pc' & [= <-] & Hp' & _). done.
Qed.

Lemma promo_letter (b : Board) (uci_from uci_to : jsstr) :
  promo b uci_from uci_to = str "q" ∨ promo b uci_from uci_to = [].
Proof.
  unfold promo. destruct (get b uci_from); [|by right].
  repeat destruct (decide _); auto.
Qed.

(** *** Moves *)

Lemma turn_check g sid :
  (turn (board g) = SideW ∧ players g !! sid ≠ Some White)
  ∨ (turn (board g) = SideB ∧ players g !! sid ≠ Some Black)
  ↔ ¬ may_move g sid.
Proof.
  unfold may_move.
  destruct (turn (board g)), (players g !! sid) as [[]|]; simpl;
    intuition congruence.
Qed.

Lemma on_move_refused now sid room_id src dst games g :
  games !! room_id = Some g → ¬ may_move g sid →
  on_move now sid room_id src dst games = (games, []).
Proof.
  intros Hg Hno. unfold on_move. rewrite Hg.
  by rewrite decide_True by (by apply turn_check).
Qed.

Lemma on_move_seated now sid room_id src dst games g :
  games !! room_id = Some g → may_move g sid →
  on_move now sid room_id src dst games
  = let g1 := tick g (players g !! sid) now in
    match move (board g) (translate (board g) src dst) with
    | Some (b', san) =>
        (<[room_id := MkGame b' (players g) (mode g) (time g1)
                        (last_move_time g1) (move_list g ++ [san])]> games,
         [Broadcast room_id
            (MMove src dst (if decide (turn b' = SideW) then White else Black)
                   (src, dst) (time g1))])
    | None => (<[room_id := g1]> games, [])
    end.
Proof.
  intros Hg Hmay. unfold on_move. rewrite Hg.
  rewrite decide_False by (rewrite turn_check; tauto).
  assert (Hb : board (tick g (players g !! sid) now) = board g)
    by (unfold tick; by destruct (time g)).
  assert (Hp : players (tick g (players g !! sid) now) = players g)
    by (unfold tick; by destruct (time g)).
  assert (Hm : mode (tick g (players g !! sid) now) = mode g)
    by (unfold tick; by destruct (time g)).
  assert (Hl : move_list (tick g (players g !! sid) now) = move_list g)
    by (unfold tick; by destruct (time g)).
  simpl. rewrite Hb, Hp, Hm, Hl. done.
Qed.

Lemma on_move_other now sid r room_id src dst games :
  r ≠ room_id →
  (on_move now sid r src dst games).1 !! room_id = games !! room_id.
Proof.
  intros Hne. unfold on_move. destruct (games !! r) as [g|];
    [|by case_decide].
  destruct (decide _); [done|].
  destruct (move _ _) as [[b' san]|]; simpl; by rewrite lookup_insert_ne.
Qed.

(** C8: for a move sent by a seated connection whose color is to move,
    with indices on the board, the handler submits to the engine the
    request whose squares are the algebraic names of the two index
    pairs, a1 to h8; the request carries the promotion letter q exactly
    when the piece on the source square is a pawn and the destination
    rank is the last one for the pawn's color (rank 8 for white, rank 1
    for black), and carries no promotion otherwise. *)
Theorem move_translation now sid room_id games g (fx fy tx ty : Z) :
  games !! room_id = Some g → may_move g sid →
  0 ≤ fx < 8 → 0 ≤ fy < 8 → 0 ≤ tx < 8 → 0 ≤ ty < 8 →
  let rq := translate (board g) (fx, fy) (tx, ty) in
  (∀ b' san, move (board g) rq = Some (b', san) →
     ∃ g', (on_move now sid room_id (fx, fy) (tx, ty) games).1 !! room_id
           = Some g'
       ∧ board g' = b' ∧ move_list g' = move_list g ++ [san])
  ∧ (move (board g) rq = None →
     (on_move now sid room_id (fx, fy) (tx, ty) games).2 = [])
  ∧ from rq = [97 + fx; 49 + fy] ∧ to rq = [97 + tx; 49 + ty]
  ∧ from rq ∈ algebraic_squares ∧ to rq ∈ algebraic_squares
  ∧ (promotion rq = Some (str "q")
     ↔ ∃ pc, get (board g) (from rq) = Some pc ∧ ptype pc = Pawn
         ∧ ((pcolor pc = SideW ∧ ty = 7) ∨ (pcolor pc = SideB ∧ ty = 0)))
  ∧ (promotion rq ≠ Some (str "q") → promotion rq = None).
Proof.
  intros Hg Hmay Hfx Hfy Htx Hty rq.
  pose proof (on_move_seated now sid room_id (fx, fy) (tx, ty) games g Hg Hmay)
    as Hmove. simpl in Hmove. fold rq in Hmove.
  assert (Hfrom : from rq = [97 + fx; 49 + fy]).
  { unfold rq, translate. simpl. by apply xy_to_uci_square. }
  assert (Hto : to rq = [97 + tx; 49 + ty]).
  { unfold rq, translate. simpl. by apply xy_to_uci_square. }
  assert (Hpromo : promotion rq
    = if decide (promo (board g) [97 + fx; 49 + fy] [97 + tx; 49 + ty] = [])
      then None
      else Some (promo (board g) [97 + fx; 49 + fy] [97 + tx; 49 + ty])).
  { unfold rq, translate. simpl. by rewrite !xy_to_uci_square. }
  split_and!.
  - intros b' san Hans. rewrite Hmove, Hans. eexists. simpl.
    rewrite lookup_insert_eq. done.
  - intros Hans. by rewrite Hmove, Hans.
  - done.
  - done.
  - rewrite Hfrom. by apply square_algebraic.
  - rewrite Hto. by apply square_algebraic.
  - rewrite Hfrom, <- (promo_on_board (board g) _ tx ty) by done.
    rewrite Hpromo. destruct (decide _) as [Hnil|Hnil].
    + rewrite Hnil. done.
    + split; [by intros [= ->]|by intros ->].
  - rewrite Hpromo. destruct (decide _) as [Hnil|Hnil]; [done|].
    intros Hq. destruct (promo_letter (board g) [97 + fx; 49 + fy]
                           [97 + tx; 49 + ty]) as [Hl|Hl]; [|done].
    destruct Hq. by rewrite Hl.
Qed.

Lemma tick_untimed g c now : time g = None → tick g c now = g.
Proof. intros Hnone. unfold tick. by rewrite Hnone. Qed.

Lemma tick_timed g c now t :
  time g = Some t →
  time (tick g c now)
  = Some (charge t c ((now - last_move_time g) `div` 1000))
  ∧ last_move_time (tick g c now) = now.
Proof. intros Hsome. unfold tick. by rewrite Hsome. Qed.

(** C1, as the code has it: a move on a room of the table is applied
    (the board becomes the engine's answer and the notation is added at
    the end of the history) if and only if the sender holds a seat, the
    seat's color is the side to move and the engine accepts the
    translated move, and then the move is broadcast to the room. In every
    other case board and history stay as they were and nothing is sent.
    The clock stays as it was when the sender has no seat or is not to
    move, and in a room without a clock; in a room with a clock, a move
    by the seated side to move that the engine rejects still takes the
    whole seconds since the last move from the mover and resets the time
    of the last move. Seats, mode and the other rooms never change. *)
Theorem move_applied_iff_accepted now sid room_id src dst games g :
  games !! room_id = Some g →
  ∃ g', (on_move now sid room_id src dst games).1 !! room_id = Some g'
    ∧ (applied g g' src dst ↔ accepted g sid src dst)
    ∧ (accepted g sid src dst →
       (on_move now sid room_id src dst games).2
       = [Broadcast room_id
            (MMove src dst
               (if decide (turn (board g') = SideW) then White else Black)
               (src, dst) (time g'))])
    ∧ (¬ accepted g sid src dst →
       board g' = board g ∧ move_list g' = move_list g
       ∧ (on_move now sid room_id src dst games).2 = [])
    ∧ (¬ may_move g sid → (on_move now sid room_id src dst games).1 = games)
    ∧ (¬ accepted g sid src dst → time g = None →
       (on_move now sid room_id src dst games).1 = games)
    ∧ (may_move g sid → ∀ t, time g = Some t →
       time g'
       = Some (charge t (players g !! sid)
                 ((now - last_move_time g) `div` 1000))
       ∧ last_move_time g' = now)
    ∧ players g' = players g ∧ mode g' = mode g
    ∧ (∀ r, r ≠ room_id →
       (on_move now sid room_id src dst games).1 !! r = games !! r).
Proof.
  intros Hg.
  assert (Hothers : ∀ r, r ≠ room_id →
    (on_move now sid room_id src dst games).1 !! r = games !! r).
  { intros r Hne. by apply on_move_other. }
  destruct (decide (may_move g sid)) as [Hmay|Hno].
  - pose proof (on_move_seated now sid room_id src dst games g Hg Hmay)
      as Hmove. simpl in Hmove.
    assert (Hpl : players (tick g (players g !! sid) now) = players g)
      by (unfold tick; by destruct (time g)).
    assert (Hmd : mode (tick g (players g !! sid) now) = mode g)
      by (unfold tick; by destruct (time g)).
    assert (Hbd : board (tick g (players g !! sid) now) = board g)
      by (unfold tick; by destruct (time g)).
    assert (Hml : move_list (tick g (players g !! sid) now) = move_list g)
      by (unfold tick; by destruct (time g)).
    destruct (move (board g) (translate (board g) src dst))
      as [[b' san]|] eqn:Hans.
    + eexists. rewrite Hmove. simpl. rewrite lookup_insert_eq.
      split; [done|]. simpl.
      assert (Hacc : accepted g sid src dst).
      { split; [done|]. rewrite Hans. eauto. }
      split_and!; try done; try (intros r Hne; by rewrite lookup_insert_ne).
      * split; [done|]. intros _. exists b', san. by rewrite Hans.
      * intros t Ht. by apply tick_timed.
    + exists (tick g (players g !! sid) now). rewrite Hmove. simpl.
      rewrite lookup_insert_eq. split; [done|].
      assert (Hacc : ¬ accepted g sid src dst).
      { intros [_ Hsome]. rewrite Hans in Hsome. by destruct Hsome. }
      split_and!; try done; try (intros r Hne; by rewrite lookup_insert_ne).
      * split; [|done]. intros (b' & san & Hsome & _). by rewrite Hans in Hsome.
      * intros _ Hnone. rewrite tick_untimed by done. by apply insert_id.
      * intros _ t Ht. by apply tick_timed.
  - exists g. rewrite (on_move_refused now sid room_id src dst games g Hg Hno).
    simpl. split; [done|].
    assert (Hacc : ¬ accepted g sid src dst) by (by intros [Hmay _]).
    split_and!; try done.
    split; [|done]. intros (b' & san & _ & _ & Hl).
    apply (f_equal length) in Hl. rewrite length_app in Hl. simpl in Hl. lia.
Qed.

(** *** History and turn *)

Lemma turn_passed (b b' : Board) : turn b' ≠ turn b → turn b' = opposite (turn b).
Proof. destruct (turn b), (turn b'); simpl; congruence. Qed.

Lemma opposite_parity (n : nat) :
  Nat.iter n opposite SideW = if Nat.even n then SideW else SideB.
Proof.
  induction n as [|n IH]; [done|].
  rewrite Nat.even_succ, <- Nat.negb_even. simpl. rewrite IH.
  by destruct (Nat.even n).
Qed.

(** What one event does to the history and to the turn of a room. *)
Lemma step_history `{!ChessLaws E} ev room_id games g :
  games !! room_id = Some g →
  ∃ g1, (step ev games).1 !! room_id = Some g1
    ∧ move_list g1 = move_list g ++ option_list (accepted_san ev room_id games)
    ∧ turn (board g1)
      = Nat.iter (length (option_list (accepted_san ev room_id games)))
          opposite (turn (board g)).
Proof.
  intros Hg. destruct ev as [sid r|sid r msg|now sid r src dst|sid]; simpl.
  - unfold on_join. destruct (games !! r) as [gr|] eqn:Hr;
      [|case_decide; exists g; by rewrite app_nil_r].
    destruct (decide _) as [_|_]; [|exists g; by rewrite app_nil_r].
    simpl. destruct (decide (r = room_id)) as [->|Hne].
    + rewrite lookup_insert_eq. eexists. split; [done|]. simpl.
      rewrite Hg in Hr. injection Hr as <-. by rewrite app_nil_r.
    + rewrite lookup_insert_ne by done. exists g. by rewrite app_nil_r.
  - unfold on_chat. destruct (games !! r); [|case_decide]; exists g;
      by rewrite app_nil_r.
  - destruct (decide (r = room_id)) as [->|Hne].
    + rewrite Hg. destruct (decide (may_move g sid)) as [Hmay|Hno].
      * rewrite (on_move_seated now sid room_id src dst games g Hg Hmay).
        simpl. destruct (move (board g) (translate (board g) src dst))
          as [[b' san]|] eqn:Hans; simpl.
        -- rewrite lookup_insert_eq. eexists. split; [done|]. simpl.
           split; [done|]. apply turn_passed.
           by eapply move_passes_turn.
        -- rewrite lookup_insert_eq. eexists. split; [done|].
           unfold tick. destruct (time g); simpl; by rewrite app_nil_r.
      * rewrite (on_move_refused now sid room_id src dst games g Hg Hno).
        exists g. by rewrite app_nil_r.
    + rewrite on_move_other by done. exists g. by rewrite app_nil_r.
  - rewrite map_lookup_imap, Hg. simpl. eexists. split; [done|].
    unfold leave. destruct (players g !! sid); simpl; by rewrite app_nil_r.
Qed.

Lemma run_history `{!ChessLaws E} evs room_id games g :
  games !! room_id = Some g →
  ∃ g', (run evs games).1 !! room_id = Some g'
    ∧ move_list g' = move_list g ++ accepted_moves evs room_id games
    ∧ turn (board g')
      = Nat.iter (length (accepted_moves evs room_id games))
          opposite (turn (board g)).
Proof.
  revert games g. induction evs as [|ev evs IH]; intros games g Hg.
  { exists g. simpl. by rewrite app_nil_r. }
  destruct (step_history ev room_id games g Hg) as (g1 & Hg1 & Hl1 & Ht1).
  simpl. destruct (step ev games) as [games1 out1] eqn:Hstep. simpl in *.
  destruct (IH games1 g1 Hg1) as (g' & Hg' & Hl' & Ht').
  destruct (run evs games1) as [games2 out2]. simpl in *.
  exists g'. split; [done|]. split.
  - by rewrite Hl', Hl1, app_assoc.
  - rewrite Ht', Ht1, length_app, Nat.add_comm. by rewrite Nat.iter_add.
Qed.

(** C3: after any sequence of events on a newly created room, the
    room's history is the list of the notations of the accepted moves,
    in the order in which they were accepted; so with N accepted moves
    it has N entries, and it is white's turn when N is even and black's
    when N is odd. The engine is assumed to start with white to move and
    to pass the turn on every move it accepts. *)
Theorem history_and_turn_after_accepted_moves `{!ChessLaws E}
    (evs : list event) (m : string) room_id now games0 :
  ∃ g, (run evs (create m room_id now games0)).1 !! room_id = Some g
    ∧ move_list g = accepted_moves evs room_id (create m room_id now games0)
    ∧ length (move_list g)
      = length (accepted_moves evs room_id (create m room_id now games0))
    ∧ turn (board g)
      = if Nat.even (length (accepted_moves evs room_id
                               (create m room_id now games0)))
        then SideW else SideB.
Proof.
  destruct (run_history evs room_id _ _ (create_lookup m room_id now games0))
    as (g & Hg & Hl & Ht).
  simpl in Hl, Ht. exists g. split; [done|]. split; [done|].
  split; [by rewrite Hl|].
  rewrite Ht, new_chess_turn. apply opposite_parity.
Qed.

(** *** Square names in general *)

Lemma str_inj (s1 s2 : string) : str s1 = str s2 → s1 = s2.
Proof.
  unfold str. intros Heq.
  rewrite <- (string_of_list_ascii_of_string s1),
          <- (string_of_list_ascii_of_string s2).
  f_equal. revert Heq.
  generalize (list_ascii_of_string s1) (list_ascii_of_string s2).
  intros l1. induction l1 as [|a l1 IH]; intros [|b l2]; simpl; try done.
  intros [= Hab Hl]. f_equal; [|by apply IH].
  apply Nat2Z.inj in Hab.
  by rewrite <- (ascii_nat_embedding a), <- (ascii_nat_embedding b), Hab.
Qed.

Lemma to_int_proper (n : Z) :
  Z.to_int n ≠ Decimal.Pos Decimal.Nil ∧ Z.to_int n ≠ Decimal.Neg Decimal.Nil.
Proof.
  pose proof (DecimalZ.to_of (Z.to_int n)) as Hnorm.
  rewrite DecimalZ.of_to in Hnorm.
  split; intros Heq; rewrite Heq in Hnorm; discriminate Hnorm.
Qed.

Lemma number_to_string_inj (n1 n2 : Z) :
  number_to_string n1 = number_to_string n2 → n1 = n2.
Proof.
  unfold number_to_string. intros Heq%str_inj.
  apply DecimalZ.to_int_inj.
  destruct (to_int_proper n1) as [Hp1 Hn1], (to_int_proper n2) as [Hp2 Hn2].
  pose proof (NilZero.isi _ Hp1 Hn1) as H1.
  pose proof (NilZero.isi _ Hp2 Hn2) as H2.
  rewrite Heq, H2 in H1. by injection H1.
Qed.




(** Where the file sum is rounded, two neighbours get one name. *)
Example xy_to_uci_rounded :
  xy_to_uci (2 ^ 53 - 2, 0) = xy_to_uci (2 ^ 53 - 1, 0)
  ∧ xy_to_uci (2 ^ 53 - 1, 0) = [96; 49].
Proof. split; reflexivity. Qed.

(** X1: for indices that are safe integers, two pairs get the same
    square name exactly when their rank indices are equal and the
    doubles of their file sums give the same code unit; where the file
    sums are at most 2^53, and so exact, that is when the file indices
    agree modulo 2^16, and on the board the name determines the pair. *)
Theorem xy_to_uci_eq_iff (x1 y1 x2 y2 : Z) :
  safe_integer x1 → safe_integer y1 → safe_integer x2 → safe_integer y2 →
  (xy_to_uci (x1, y1) = xy_to_uci (x2, y2)
   ↔ to_double (97 + x1) mod 65536 = to_double (97 + x2) mod 65536
     ∧ y1 = y2)
  ∧ (97 + x1 ≤ 2 ^ 53 → 97 + x2 ≤ 2 ^ 53 →
     (xy_to_uci (x1, y1) = xy_to_uci (x2, y2)
      ↔ (97 + x1) mod 65536 = (97 + x2) mod 65536 ∧ y1 = y2))
  ∧ (0 ≤ x1 < 8 → 0 ≤ x2 < 8 →
     xy_to_uci (x1, y1) = xy_to_uci (x2, y2) → (x1, y1) = (x2, y2)).
Proof.
  unfold safe_integer. intros Hx1 Hy1 Hx2 Hy2.
  assert (Hiff : xy_to_uci (x1, y1) = xy_to_uci (x2, y2)
                 ↔ to_double (97 + x1) mod 65536
                   = to_double (97 + x2) mod 65536 ∧ y1 = y2).
  { unfold xy_to_uci, fromCharCode. simpl fst. simpl snd.
    change (Z.of_nat (nat_of_ascii "a")) with 97.
    rewrite (to_double_exact (y1 + 1)), (to_double_exact (y2 + 1)) by lia.
    split.
    - intros [= Hx Hy%number_to_string_inj]. split; [done|lia].
    - intros [-> ->]. done. }
  split; [done|]. split.
  - intros Hs1 Hs2. rewrite Hiff, !to_double_exact by lia. done.
  - intros H1 H2 [Hx ->]%Hiff. rewrite !to_double_exact in Hx by lia.
    rewrite !Z.mod_small in Hx by lia. f_equal. lia.
Qed.


(** *** What one event does to one room *)

Lemma step_room_step ev room_id games g :
  games !! room_id = Some g →
  ∃ g', (step ev games).1 !! room_id = Some g' ∧ room_step room_id g ev g'.
Proof.
  intros Hg. destruct ev as [sid r|sid r msg|now sid r src dst|sid]; simpl.
  - unfold on_join. destruct (games !! r) as [gr|] eqn:Hr;
      [|case_decide; (exists g; split; [done|constructor])].
    destruct (decide _) as [Hlt|_]; [|exists g; split; [done|constructor]].
    simpl. destruct (decide (r = room_id)) as [->|Hne].
    + rewrite lookup_insert_eq. rewrite Hg in Hr. injection Hr as <-.
      eexists. split; [done|]. by constructor.
    + rewrite lookup_insert_ne by done. exists g. split; [done|constructor].
  - unfold on_chat. destruct (games !! r); [|case_decide];
      (exists g; split; [done|constructor]).
  - destruct (decide (r = room_id)) as [->|Hne].
    + destruct (decide (may_move g sid)) as [Hmay|Hno].
      * rewrite (on_move_seated now sid room_id src dst games g Hg Hmay).
        simpl. destruct (move (board g) (translate (board g) src dst))
          as [[b' san]|] eqn:Hans; simpl; rewrite lookup_insert_eq;
          eexists; (split; [done|]); by constructor.
      * rewrite (on_move_refused now sid room_id src dst games g Hg Hno).
        exists g. split; [done|constructor].
    + rewrite on_move_other by done. exists g. split; [done|constructor].
  - rewrite map_lookup_imap, Hg. simpl. eexists. split; [done|].
    unfold leave. destruct (players g !! sid) as [c|] eqn:Hc; simpl.
    + by econstructor.
    + constructor.
Qed.

Lemma step_room_absent ev room_id games :
  games !! room_id = None → (step ev games).1 !! room_id = None.
Proof.
  intros Hnone. destruct ev as [sid r|sid r msg|now sid r src dst|sid]; simpl.
  - unfold on_join. destruct (games !! r) as [gr|] eqn:Hr;
      [|by case_decide].
    destruct (decide _); [|done]. simpl.
    rewrite lookup_insert_ne; [done|]. intros ->. congruence.
  - unfold on_chat. destruct (games !! r); [done|by case_decide].
  - destruct (decide (r = room_id)) as [->|Hne].
    + unfold on_move. rewrite Hnone. by case_decide.
    + by rewrite on_move_other.
  - by rewrite map_lookup_imap, Hnone.
Qed.

(** A relation between the states of a room that every event respects
    holds along every sequence of events. *)
Lemma run_room_rel (R : Game → Game → Prop) room_id :
  (∀ g, R g g) → (∀ g1 g2 g3, R g1 g2 → R g2 g3 → R g1 g3) →
  (∀ g ev g', room_step room_id g ev g' → R g g') →
  ∀ evs games g, games !! room_id = Some g →
    ∃ g', (run evs games).1 !! room_id = Some g' ∧ R g g'.
Proof.
  intros Hrefl Htrans Hstep evs.
  induction evs as [|ev evs IH]; intros games g Hg; [by exists g|].
  destruct (step_room_step ev room_id games g Hg) as (g1 & Hg1 & Hrs).
  simpl. destruct (step ev games) as [games1 out1]. simpl in Hg1.
  destruct (IH games1 g1 Hg1) as (g' & Hg' & HR).
  destruct (run evs games1) as [games2 out2]. simpl in *.
  exists g'. split; [done|]. eapply Htrans; [|done]. by eapply Hstep.
Qed.

Lemma tick_fields g c now :
  board (tick g c now) = board g ∧ players (tick g c now) = players g
  ∧ mode (tick g c now) = mode g ∧ move_list (tick g c now) = move_list g
  ∧ (time (tick g c now) = None ↔ time g = None)
  ∧ (time g = None → last_move_time (tick g c now) = last_move_time g).
Proof.
  unfold tick. destruct (time g) as [t|] eqn:Ht; simpl; rewrite ?Ht;
    split_and!; done.
Qed.

(** *** Rooms over sequences of events *)

(** X3: a new room has a clock exactly when its mode is blitz or rapid;
    every other mode name, known or not, gives a room without a clock,
    and a clock starts with the same positive time on both sides. *)
Theorem create_timed_iff (m : string) room_id now games :
  ∃ g, create m room_id now games !! room_id = Some g
    ∧ (is_Some (time g) ↔ m = "blitz" ∨ m = "rapid")
    ∧ (∀ t, time g = Some t → white t = black t ∧ 0 < white t).
Proof.
  eexists. rewrite create_lookup. split; [done|]. simpl.
  destruct (decide (m = "blitz")) as [->|Hb];
    [|destruct (decide (m = "rapid")) as [->|Hr]].
  - change (start_clock "blitz") with (Some (Clock 300 300)).
    split; [split; eauto|]. intros t [= <-]. simpl. lia.
  - change (start_clock "rapid") with (Some (Clock 600 600)).
    split; [split; eauto|]. intros t [= <-]. simpl. lia.
  - assert (Hnone : start_clock m = None).
    { unfold start_clock, mode_time. rewrite !decide_False by done.
      by destruct (decide (m = "stopwatch")). }
    rewrite Hnone. split; [|by intros t [=]].
    split; [by intros [? [=]]|by intros [?|?]].
Qed.

(** X5: no sequence of socket events removes a room, changes its mode,
    gives a clock to a room without one or takes the clock of a room
    that has one; in a room without a clock the time of the last move
    stays what it was. *)
Theorem mode_and_clock_kind_fixed (evs : list event) room_id games g :
  games !! room_id = Some g →
  ∃ g', (run evs games).1 !! room_id = Some g'
    ∧ mode g' = mode g
    ∧ (time g' = None ↔ time g = None)
    ∧ (time g = None → last_move_time g' = last_move_time g).
Proof.
  intros Hg.
  apply (run_room_rel
           (λ g g', mode g' = mode g ∧ (time g' = None ↔ time g = None)
                    ∧ (time g = None → last_move_time g' = last_move_time g))
           room_id); [done| | |done].
  - intros g1 g2 g3 (Hm1 & Ht1 & Hl1) (Hm2 & Ht2 & Hl2).
    split; [congruence|]. split; [tauto|].
    intros Hnone. rewrite Hl2 by tauto. auto.
  - intros g0 ev g' Hrs.
    destruct Hrs as [ev|sid Hlt|now sid src dst b' san Hmay Hans
                    |now sid src dst Hmay Hans|sid c Hc]; simpl; try done;
      destruct (tick_fields g0 (players g0 !! sid) now)
        as (_ & _ & Hm & _ & Ht & Hl); done.
Qed.

(** X6: socket events neither add nor remove rooms: after any sequence
    of events the table has exactly the room ids it had. *)
Theorem rooms_persist (evs : list event) games :
  dom (run evs games).1 = dom games.
Proof.
  revert games. induction evs as [|ev evs IH]; intros games; [done|].
  simpl. assert (Hstep : dom (step ev games).1 = dom games).
  { apply set_eq. intros r. rewrite !elem_of_dom.
    destruct (games !! r) as [g|] eqn:Hg.
    - destruct (step_room_step ev r games g Hg) as (g' & -> & _).
      split; eauto.
    - rewrite (step_room_absent ev r games Hg). done. }
  destruct (step ev games) as [games1 out1]. simpl in Hstep.
  specialize (IH games1). destruct (run evs games1) as [games2 out2].
  simpl in *. congruence.
Qed.

Lemma step_move_list ev room_id games g :
  games !! room_id = Some g →
  ∃ g1, (step ev games).1 !! room_id = Some g1
    ∧ move_list g1 = move_list g ++ option_list (accepted_san ev room_id games).
Proof.
  intros Hg.
  assert (Hquiet : ∀ ev, accepted_san ev room_id games = None →
    ∃ g1, (step ev games).1 !! room_id = Some g1
      ∧ move_list g1
        = move_list g ++ option_list (accepted_san ev room_id games)).
  { intros ev' Hnone.
    destruct (step_room_step ev' room_id games g Hg) as (g1 & Hg1 & Hrs).
    exists g1. split; [done|]. rewrite Hnone. simpl. rewrite app_nil_r.
    destruct Hrs as [ev'|sid Hlt|now sid src dst b' san Hmay Hans
                    |now sid src dst Hmay Hans|sid c Hc]; simpl; try done.
    - simpl in Hnone. rewrite decide_True, Hg, decide_True, Hans in Hnone
        by done. done.
    - apply tick_fields. }
  destruct (accepted_san ev room_id games) as [san|] eqn:Hacc;
    [|rewrite <- Hacc; by apply Hquiet].
  destruct ev as [sid r|sid r msg|now sid r src dst|sid]; try done.
  simpl in Hacc. destruct (decide (r = room_id)) as [->|Hne]; [|done].
  rewrite Hg in Hacc. destruct (decide (may_move g sid)) as [Hmay|Hno]; [|done].
  simpl. rewrite (on_move_seated now sid room_id src dst games g Hg Hmay).
  simpl. destruct (move (board g) (translate (board g) src dst))
    as [[b' san']|]; [|done]. simpl in *. injection Hacc as ->.
  rewrite lookup_insert_eq. eexists. split; done.
Qed.

Lemma run_move_list evs room_id games g :
  games !! room_id = Some g →
  ∃ g', (run evs games).1 !! room_id = Some g'
    ∧ move_list g' = move_list g ++ accepted_moves evs room_id games.
Proof.
  revert games g. induction evs as [|ev evs IH]; intros games g Hg.
  { exists g. simpl. by rewrite app_nil_r. }
  destruct (step_move_list ev room_id games g Hg) as (g1 & Hg1 & Hl1).
  simpl. destruct (step ev games) as [games1 out1]. simpl in *.
  destruct (IH games1 g1 Hg1) as (g' & Hg' & Hl').
  destruct (run evs games1) as [games2 out2]. simpl in *.
  exists g'. split; [done|]. by rewrite Hl', Hl1, app_assoc.
Qed.

(** X7: the history of a room only grows at its end: after any sequence
    of events, with any engine, it is the history the room had followed
    by the notations of the moves accepted since, so what was recorded is
    never changed or dropped. *)
Theorem history_append_only (evs : list event) room_id games g :
  games !! room_id = Some g →
  ∃ g', (run evs games).1 !! room_id = Some g'
    ∧ move_list g' = move_list g ++ accepted_moves evs room_id games
    ∧ move_list g `prefix_of` move_list g'
    ∧ (length (move_list g) ≤ length (move_list g'))%nat.
Proof.
  intros Hg. destruct (run_move_list evs room_id games g Hg) as (g' & Hg' & Hl).
  exists g'. split; [done|]. split; [done|]. rewrite Hl. split.
  - by apply prefix_app_r.
  - rewrite length_app. lia.
Qed.

(** *** Clocks over sequences of events *)

Lemma clock_le_refl g : clock_le g g.
Proof. intros t Ht. exists t. split; [done|]. lia. Qed.

Lemma clock_le_trans g1 g2 g3 : clock_le g1 g2 → clock_le g2 g3 → clock_le g1 g3.
Proof.
  intros H12 H23 t1 Ht1. destruct (H12 t1 Ht1) as (t2 & Ht2 & ?).
  destruct (H23 t2 Ht2) as (t3 & Ht3 & ?). exists t3. split; [done|]. lia.
Qed.

Lemma tick_clock g sid now T :
  may_move g sid → last_move_time g ≤ T → T ≤ now →
  clock_le g (tick g (players g !! sid) now)
  ∧ last_move_time (tick g (players g !! sid) now) ≤ now.
Proof.
  intros Hmay Hlast Hnow. unfold may_move in Hmay.
  destruct (players g !! sid) as [c|]; [|done]. unfold tick.
  destruct (time g) as [t|] eqn:Ht; simpl.
  - split; [|lia]. intros t0 Ht0. rewrite Ht in Ht0. injection Ht0 as <-.
    simpl. eexists. split; [done|].
    pose proof (Z.div_pos (now - last_move_time g) 1000).
    pose proof (Z.mul_div_le (now - last_move_time g) 1000).
    destruct c; simpl; lia.
  - split; [|lia]. intros t0 Ht0. congruence.
Qed.

Lemma room_step_clock room_id g ev g' T :
  room_step room_id g ev g' → last_move_time g ≤ T → T ≤ next_time T ev →
  clock_le g g' ∧ last_move_time g' ≤ next_time T ev.
Proof.
  intros Hrs Hlast Hnext.
  destruct Hrs as [ev|sid Hlt|now sid src dst b' san Hmay Hans
                  |now sid src dst Hmay Hans|sid c Hc]; simpl in *.
  - split; [apply clock_le_refl|lia].
  - split; [|done]. intros t Ht. exists t. split; [done|]. simpl. lia.
  - destruct (tick_clock g sid now T Hmay Hlast Hnext) as [Hle Hl].
    split; [|done]. intros t Ht. destruct (Hle t Ht) as (t' & Ht' & ?).
    exists t'. done.
  - by apply (tick_clock g sid now T).
  - split; [|done]. intros t Ht. exists t. split; [done|]. simpl. lia.
Qed.

Lemma timestamps_from_cons T ev evs :
  timestamps_from T (ev :: evs) →
  T ≤ next_time T ev ∧ timestamps_from (next_time T ev) evs.
Proof. destruct ev; simpl; intros Hts; try (split; [lia|done]). done. Qed.

Lemma run_clock evs room_id :
  ∀ T games g, timestamps_from T evs → games !! room_id = Some g →
    last_move_time g ≤ T →
    ∃ g', (run evs games).1 !! room_id = Some g' ∧ clock_le g g'.
Proof.
  induction evs as [|ev evs IH]; intros T games g Hts Hg Hlast.
  { exists g. split; [done|apply clock_le_refl]. }
  apply timestamps_from_cons in Hts as [Hnext Hts].
  destruct (step_room_step ev room_id games g Hg) as (g1 & Hg1 & Hrs).
  destruct (room_step_clock room_id g ev g1 T Hrs Hlast Hnext) as [Hle Hl1].
  simpl. destruct (step ev games) as [games1 out1]. simpl in Hg1.
  destruct (IH _ games1 g1 Hts Hg1 Hl1) as (g' & Hg' & Hle').
  destruct (run evs games1) as [games2 out2]. simpl in *.
  exists g'. split; [done|]. by eapply clock_le_trans.
Qed.

(** X4: in a room created with a clock, after any sequence of events
    whose move times do not go back, neither side has more time than it
    started with, and the seconds taken from both sides together never
    exceed the time between the creation of the room and its last
    accepted or rejected move of the side to move. *)
Theorem clocks_never_overcharge
    (evs : list event) (m : string) room_id now0 games0 t0 :
  timestamps_from now0 evs →
  start_clock m = Some t0 →
  ∃ g t, (run evs (create m room_id now0 games0)).1 !! room_id = Some g
    ∧ time g = Some t
    ∧ white t ≤ white t0 ∧ black t ≤ black t0
    ∧ now0 ≤ last_move_time g
    ∧ 1000 * ((white t0 - white t) + (black t0 - black t))
      ≤ last_move_time g - now0.
Proof.
  intros Hts Hstart.
  destruct (run_clock evs room_id now0 _ _ Hts
              (create_lookup m room_id now0 games0)) as (g & Hg & Hle);
    [simpl; lia|].
  destruct (Hle t0) as (t & Ht & ?); [done|]. exists g, t. done.
Qed.

(** *** Seats: joining and leaving *)

Lemma flat_map_nil {A B} (f : A → list B) (l : list A) :
  (∀ x, x ∈ l → f x = []) → flat_map f l = [].
Proof.
  induction l as [|x l IH]; intros Hall; [done|]. simpl.
  rewrite (Hall x) by (apply elem_of_cons; by left).
  apply IH. intros y Hy. apply Hall, elem_of_cons. by right.
Qed.

(** X8: the first connection to join an empty room is seated as white,
    and a connection joining a room whose only seat is held by another
    connection is seated with the other color; in both cases the joiner
    is told its color with the room's mode and clock, and the room is
    told the color that joined. *)
Theorem join_assigns_free_color sid room_id games g :
  games !! room_id = Some g →
  (players g = ∅ →
   on_join sid room_id games
   = (<[room_id := set_players g {[sid := White]}]> games,
      [SocketJoin sid room_id;
       Emit sid (MPlayer White (mode g) (time g));
       Broadcast room_id (MChat "<i>white ist beigetreten</i>")]))
  ∧ (∀ o c, o ≠ sid → players g = {[o := c]} →
     on_join sid room_id games
     = (<[room_id := set_players g (<[sid := other_color c]> {[o := c]})]>
          games,
        [SocketJoin sid room_id;
         Emit sid (MPlayer (other_color c) (mode g) (time g));
         Broadcast room_id
           (MChat ("<i>" +:+ color_text (Some (other_color c))
                   +:+ " ist beigetreten</i>"))])).
Proof.
  intros Hg. split.
  - intros Hps. unfold on_join. rewrite Hg, Hps, map_size_empty, map_to_list_empty.
    simpl. by rewrite insert_empty.
  - intros o c Hne Hps. unfold on_join.
    rewrite Hg, Hps, map_size_singleton, map_to_list_singleton.
    simpl. by destruct c.
Qed.

(** X13: when the seats of a room are exactly one connection, a join by
    that connection gives it the other color, whichever it held, and a
    second such join gives the first color back: after the two joins the
    whole table is as it was. *)
Theorem rejoin_twice_restores c col room_id games g :
  games !! room_id = Some g →
  players g = {[c := col]} →
  (∃ g1, (on_join c room_id games).1 !! room_id = Some g1
     ∧ players g1 = {[c := other_color col]})
  ∧ (on_join c room_id (on_join c room_id games).1).1 = games.
Proof.
  intros Hg Hps.
  assert (Hflip : ∀ games0 g0 col0,
    games0 !! room_id = Some g0 → players g0 = {[c := col0]} →
    (on_join c room_id games0).1
    = <[room_id := set_players g0 {[c := other_color col0]}]> games0).
  { intros games0 g0 col0 Hg0 Hps0. unfold on_join.
    rewrite Hg0, Hps0, map_size_singleton, map_to_list_singleton. simpl.
    rewrite insert_singleton_eq. by destruct col0. }
  rewrite (Hflip games g col Hg Hps). split.
  - eexists. rewrite lookup_insert_eq. done.
  - erewrite Hflip; [|by rewrite lookup_insert_eq|done].
    rewrite insert_insert_eq. apply insert_id. rewrite Hg. f_equal.
    destruct g as [b ps md t l ml]. simpl in *. subst ps. by destruct col.
Qed.

(** X11: a join changes nothing but the joiner's own seat in the room it
    names: the room's board, clock, time of the last move, history and
    mode, the seats of the other connections and every other room stay
    as they were. *)
Theorem join_frame sid room_id games r g :
  games !! r = Some g →
  ∃ g', (on_join sid room_id games).1 !! r = Some g'
    ∧ board g' = board g ∧ time g' = time g
    ∧ last_move_time g' = last_move_time g
    ∧ move_list g' = move_list g ∧ mode g' = mode g
    ∧ (∀ s, s ≠ sid → players g' !! s = players g !! s)
    ∧ (r ≠ room_id → g' = g).
Proof.
  intros Hg. unfold on_join.
  destruct (games !! room_id) as [gr|] eqn:Hr;
    [|case_decide; by exists g].
  destruct (decide _) as [_|_]; [|by exists g]. simpl.
  destruct (decide (r = room_id)) as [->|Hne].
  - rewrite lookup_insert_eq. rewrite Hg in Hr. injection Hr as <-.
    eexists. split; [done|]. simpl. split_and!; try done.
    intros s Hs. by rewrite lookup_insert_ne.
  - rewrite lookup_insert_ne by done. by exists g.
Qed.

(** X9: when a connection that holds no seat in any room joins a room
    with a free seat and then disconnects, the table is again what it
    was before the join, and the room is told once that the color it
    had been given has left. *)
Theorem join_then_disconnect_restores sid room_id games g :
  games !! room_id = Some g →
  (size (players g) < 2)%nat →
  (∀ r gr, games !! r = Some gr → players gr !! sid = None) →
  (on_disconnect sid (on_join sid room_id games).1).1 = games
  ∧ ∃ c, replies sid (on_join sid room_id games).2
         = [MPlayer c (mode g) (time g)]
      ∧ broadcasts room_id (on_disconnect sid (on_join sid room_id games).1).2
        = [MChat ("<i>" +:+ color_text (Some c) +:+ " hat verlassen</i>")].
Proof.
  intros Hg Hlt Hfree. unfold on_join. rewrite Hg, decide_True by done.
  simpl. set (c := if decide (White ∈ (map_to_list (players g)).*2)
                   then Black else White).
  set (g1 := set_players g (<[sid := c]> (players g))).
  assert (Hleave : leave sid room_id g1
    = (g, [Broadcast room_id
             (MChat ("<i>" +:+ color_text (Some c) +:+ " hat verlassen</i>"))])).
  { unfold leave, g1, set_players. simpl. rewrite lookup_insert_eq. f_equal.
    rewrite delete_insert_eq, delete_id by eauto. by destruct g. }
  split.
  - apply map_eq. intros r. rewrite map_lookup_imap.
    destruct (decide (r = room_id)) as [->|Hne].
    + rewrite lookup_insert_eq. simpl. by rewrite Hleave, Hg.
    + rewrite lookup_insert_ne by done.
      destruct (games !! r) as [gr|] eqn:Hr; [|done]. simpl.
      unfold leave. by rewrite (Hfree r gr Hr).
  - exists c. split; [by rewrite decide_True|].
    rewrite (entries_broadcasts sid room_id g1).
    + rewrite Hleave. simpl. by rewrite decide_True.
    + apply NoDup_fst_map_to_list.
    + apply elem_of_map_to_list. by rewrite lookup_insert_eq.
Qed.

(** X10: a disconnect leaves the connection without a seat in every
    room, so a second disconnect of the same connection changes nothing
    and sends nothing. *)
Theorem disconnect_idempotent sid games :
  (∀ r g, (on_disconnect sid games).1 !! r = Some g → players g !! sid = None)
  ∧ on_disconnect sid (on_disconnect sid games).1
    = ((on_disconnect sid games).1, []).
Proof.
  assert (Hgone : ∀ r g, (on_disconnect sid games).1 !! r = Some g →
                         players g !! sid = None).
  { intros r g. unfold on_disconnect. simpl. rewrite map_lookup_imap.
    destruct (games !! r) as [g0|]; simpl; [|done].
    intros [= <-]. by rewrite leave_players, lookup_delete_eq. }
  split; [done|]. set (games1 := (on_disconnect sid games).1) in *.
  unfold on_disconnect at 1. f_equal.
  - apply map_eq. intros r. rewrite map_lookup_imap.
    destruct (games1 !! r) as [g|] eqn:Hr; [|done]. simpl.
    unfold leave. by rewrite (Hgone r g Hr).
  - apply flat_map_nil. intros [r g] Hin%elem_of_map_to_list. simpl.
    unfold leave. by rewrite (Hgone r g Hin).
Qed.

(** X12: after a move of a seated connection has been accepted, the
    room is told that the other color is to move, and a further move
    sent by the same connection right away is dropped: nothing changes
    and nothing is sent. *)
Theorem mover_cannot_move_twice `{!ChessLaws E}
    now sid room_id src dst games g :
  games !! room_id = Some g →
  accepted g sid src dst →
  ∃ c g', players g !! sid = Some c
    ∧ (on_move now sid room_id src dst games).1 !! room_id = Some g'
    ∧ (on_move now sid room_id src dst games).2
      = [Broadcast room_id
           (MMove src dst (other_color c) (src, dst) (time g'))]
    ∧ ∀ now' src' dst',
        on_move now' sid room_id src' dst'
          (on_move now sid room_id src dst games).1
        = ((on_move now sid room_id src dst games).1, []).
Proof.
  intros Hg [Hmay [[b' san] Hans]].
  rewrite (on_move_seated now sid room_id src dst games g Hg Hmay).
  simpl. rewrite Hans. simpl.
  pose proof (move_passes_turn _ _ _ _ Hans) as Hturn.
  unfold may_move in Hmay. destruct (players g !! sid) as [c|] eqn:Hc; [|done].
  exists c. eexists. split; [done|]. rewrite lookup_insert_eq.
  split; [done|]. simpl. split.
  - do 3 f_equal. destruct c, (turn b') eqn:Hb'; simpl in *;
      try done; congruence.
  - intros now' src' dst'. eapply on_move_refused.
    + by rewrite lookup_insert_eq.
    + unfold may_move. simpl. rewrite Hc. congruence.
Qed.

(** X18: when one of the two seated connections of a room disconnects,
    the next connection to join that room, whichever it is, is given the
    color that was freed. *)
Theorem disconnect_then_join_takes_freed_color x c col room_id games g :
  games !! room_id = Some g →
  seats_ok (players g) → size (players g) = 2%nat →
  players g !! x = Some col →
  on_join c room_id (on_disconnect x games).1
  = (<[room_id := set_players g (<[c := col]> (delete x (players g)))]>
       (on_disconnect x games).1,
     [SocketJoin c room_id;
      Emit c (MPlayer col (mode g) (time g));
      Broadcast room_id
        (MChat ("<i>" +:+ color_text (Some col) +:+ " ist beigetreten</i>"))]).
Proof.
  intros Hg Hok Hsz Hx.
  assert (Hg1 : (on_disconnect x games).1 !! room_id
                = Some (set_players g (delete x (players g)))).
  { unfold on_disconnect. simpl. rewrite map_lookup_imap, Hg. simpl.
    unfold leave. by rewrite Hx. }
  assert (Hcol : (if decide (White ∈ (map_to_list (delete x (players g))).*2)
                  then Black else White) = col).
  { destruct (seats_ok_two _ Hok Hsz) as (s1 & s2 & Hne & Hw & Hb).
    destruct Hok as [_ Hinj]. destruct (decide _) as [Hin|Hnot].
    - apply includes_white in Hin as (s & [Hsx Hs]%lookup_delete_Some).
      destruct col; [|done]. destruct Hsx. eauto.
    - destruct col; [done|]. destruct Hnot. apply includes_white.
      exists s1. apply lookup_delete_Some. split; [|done].
      intros ->. congruence. }
  unfold on_join. rewrite Hg1. simpl.
  rewrite map_size_delete_Some, Hsz by eauto. simpl. by rewrite Hcol.
Qed.

Lemma room_step_seated room_id g ev g' sid :
  room_step room_id g ev g' → is_Some (players g' !! sid) →
  is_Some (players g !! sid) ∨ ev = EJoin sid room_id.
Proof.
  intros Hrs Hsome.
  destruct Hrs as [ev|s Hlt|now s src dst b' san Hmay Hans
                  |now s src dst Hmay Hans|s c Hc]; simpl in *; auto.
  - destruct (decide (s = sid)) as [->|Hne]; [by right|].
    left. by rewrite lookup_insert_ne in Hsome.
  - left. destruct (tick_fields g (players g !! s) now) as (_ & Hp & _).
    by rewrite Hp in Hsome.
  - left. destruct Hsome as [c' [_ Hs]%lookup_delete_Some]. eauto.
Qed.

Lemma run_seated evs room_id sid :
  ∀ games g g', games !! room_id = Some g →
    (run evs games).1 !! room_id = Some g' → is_Some (players g' !! sid) →
    is_Some (players g !! sid) ∨ EJoin sid room_id ∈ evs.
Proof.
  induction evs as [|ev evs IH]; intros games g g' Hg Hg' Hsome.
  { simpl in Hg'. left. congruence. }
  destruct (step_room_step ev room_id games g Hg) as (g1 & Hg1 & Hrs).
  simpl in Hg'. destruct (step ev games) as [games1 out1]. simpl in Hg1.
  specialize (IH games1 g1 g' Hg1).
  destruct (run evs games1) as [games2 out2]. simpl in *.
  destruct (IH Hg' Hsome) as [Hold|Hin].
  - destruct (room_step_seated room_id g ev g1 sid Hrs Hold) as [?| ->]; auto.
    right. apply elem_of_cons. by left.
  - right. apply elem_of_cons. by right.
Qed.

(** X17: a room seats only connections that asked for it: after any
    sequence of events on a newly created room, every connection holding
    a seat in the room has sent a join for that room. *)
Theorem seated_have_joined
    (evs : list event) (m : string) room_id now games0 g sid :
  (run evs (create m room_id now games0)).1 !! room_id = Some g →
  is_Some (players g !! sid) →
  EJoin sid room_id ∈ evs.
Proof.
  intros Hg Hsome.
  destruct (run_seated evs room_id sid _ _ g
              (create_lookup m room_id now games0) Hg Hsome) as [Hold|Hin];
    [|done].
  simpl in Hold. rewrite lookup_empty in Hold. by destruct Hold.
Qed.

(** X20: an event that names a room leaves every other room of the table
    as it is, broadcasts nothing to any other room and sends nothing to
    any socket but its sender. *)
Theorem events_stay_in_their_room ev room_id games r :
  event_room ev = Some room_id →
  r ≠ room_id →
  (step ev games).1 !! r = games !! r
  ∧ broadcasts r (step ev games).2 = []
  ∧ ∀ s, s ≠ event_sender ev → replies s (step ev games).2 = [].
Proof.
  intros Hroom Hne.
  destruct ev as [sid r0|sid r0 msg|now sid r0 src dst|sid]; simpl in *;
    [injection Hroom as ->..|done].
  - unfold on_join. destruct (games !! room_id) as [g|] eqn:Hg; simpl.
    + destruct (decide _); simpl.
      * rewrite lookup_insert_ne, (decide_False (P := room_id = r)) by done.
        split; [done|]. split; [done|]. intros s Hs.
        by rewrite (decide_False (P := sid = s)).
      * split; [done|]. split; [done|]. intros s Hs.
        by rewrite (decide_False (P := sid = s)).
    + case_decide; simpl; [done|]. split; [done|]. split; [done|].
      intros s Hs. by rewrite (decide_False (P := sid = s)).
  - unfold on_chat. destruct (games !! room_id) as [g|]; simpl;
      [|by case_decide].
    by rewrite (decide_False (P := room_id = r)).
  - split; [by apply on_move_other|]. unfold on_move.
    destruct (games !! room_id) as [g|]; simpl; [|by case_decide].
    destruct (decide _); simpl; [done|].
    destruct (move _ _) as [[b' san]|]; simpl; [|done].
    by rewrite (decide_False (P := room_id = r)).
Qed.

(** *** Pages *)

Lemma run_mode evs room_id games g :
  games !! room_id = Some g →
  ∃ g', (run evs games).1 !! room_id = Some g' ∧ mode g' = mode g.
Proof.
  intros Hg.
  apply (run_room_rel (λ g g', mode g' = mode g) room_id); [done| |
    |done].
  - intros g1 g2 g3. congruence.
  - intros g0 ev g' Hrs.
    destruct Hrs as [ev|sid Hlt|now sid src dst b' san Hmay Hans
                    |now sid src dst Hmay Hans|sid c Hc]; simpl; try done.
    apply tick_fields.
Qed.

Lemma templates_other (m : string) :
  m ≠ "normal" → m ≠ "blitz" → m ≠ "rapid" → m ≠ "stopwatch" →
  m ≠ "analyse" → templates !! m = None.
Proof.
  intros. unfold templates.
  rewrite !lookup_insert_ne by done. by rewrite lookup_singleton_ne.
Qed.

Lemma templates_query_other (m : string) :
  m ≠ "normal" → m ≠ "blitz" → m ≠ "rapid" → m ≠ "bullet" →
  m ≠ "stopwatch" → m ≠ "analyse" → templates_query !! m = None.
Proof.
  intros. unfold templates_query.
  rewrite !lookup_insert_ne by done. by rewrite lookup_singleton_ne.
Qed.

Lemma inherited_nonempty (k : string) :
  k ∈ object_prototype → k ≠ EmptyString.
Proof.
  intros Hin ->. apply (bool_decide_pack _) in Hin. vm_compute in Hin. done.
Qed.

Lemma templates_inherited (m : string) :
  m ∈ object_prototype → templates !! m = None ∧ templates_query !! m = None.
Proof.
  intros Hin.
  assert (Hnot : ∀ k : string, k ∉ object_prototype → m ≠ k)
    by (intros k Hk ->; done).
  split; [apply templates_other|apply templates_query_other];
    apply Hnot; apply (bool_decide_unpack _); vm_compute; exact I.
Qed.

(** X14: the page routes give their not-found answer exactly when the
    id is neither a room of the table nor the name of an inherited
    member: the game page and the analysis page then answer with the
    text "Spiel existiert nicht!" and the query route renders its
    not-found view. For an inherited name that is no room the guard is
    passed: the game pages render the plain game view and the analysis
    page renders its view without moves. The query route redirects to
    the start page when the room parameter is missing or empty. *)
Theorem pages_not_found_iff room_id games :
  (get_game room_id games = Send "Spiel existiert nicht!"
   ↔ games !! room_id = None ∧ room_id ∉ object_prototype)
  ∧ (get_analyse room_id games = Send "Spiel existiert nicht!"
     ↔ games !! room_id = None ∧ room_id ∉ object_prototype)
  ∧ (room_id ≠ EmptyString →
     (get_game_query (Some room_id) games
      = Render "game_not_found" [("room_id", LText room_id)]
      ↔ games !! room_id = None ∧ room_id ∉ object_prototype))
  ∧ (games !! room_id = None → room_id ∈ object_prototype →
     get_game room_id games = Render "game" [("room_id", LText room_id)]
     ∧ get_game_query (Some room_id) games
       = Render "game" [("room_id", LText room_id); ("game_id", LText room_id)]
     ∧ get_analyse room_id games
       = Render "analyse" [("moves", LUndefined); ("room_id", LText room_id)])
  ∧ get_game_query None games = Redirect "/"
  ∧ get_game_query (Some EmptyString) games = Redirect "/".
Proof.
  unfold get_game, get_analyse, get_game_query. split_and!; try done.
  - destruct (games !! room_id) as [g|] eqn:Hg.
    + split; [done|by intros []].
    + case_decide; split; try done. by intros [].
  - destruct (games !! room_id) as [g|] eqn:Hg.
    + split; [done|by intros []].
    + case_decide; split; try done. by intros [].
  - intros Hne. rewrite decide_False by done.
    destruct (games !! room_id) as [g|] eqn:Hg.
    + split; [done|by intros []].
    + case_decide; split; try done. by intros [].
  - intros Hnone Hin.
    rewrite (decide_False (P := room_id = EmptyString))
      by (by apply inherited_nonempty).
    rewrite Hnone. by rewrite !(decide_True (P := room_id ∈ object_prototype)).
Qed.

(** X15: once a room is created, its game page is served under its id
    after any sequence of socket events, with what [templates] holds
    for the mode it was created with: the view of that name for blitz,
    rapid, stopwatch and analyse, the plain game view for normal and for
    any other mode name that names no inherited member, and, for a mode
    that names one, that member in place of a view name. *)
Theorem created_room_page (evs : list event) (m : string) room_id now games0 :
  ∃ v, get_game room_id (run evs (create m room_id now games0)).1
       = Render v [("room_id", LText room_id)]
    ∧ (m = "blitz" → v = "game_blitz")
    ∧ (m = "rapid" → v = "game_rapid")
    ∧ (m = "stopwatch" → v = "game_stopwatch")
    ∧ (m = "analyse" → v = "game_analyse")
    ∧ (m ≠ "blitz" → m ≠ "rapid" → m ≠ "stopwatch" → m ≠ "analyse" →
       m ∉ object_prototype → v = "game")
    ∧ (m ∈ object_prototype → v = ViewMember m).
Proof.
  destruct (run_mode evs room_id _ _ (create_lookup m room_id now games0))
    as (g & Hg & Hmode). simpl in Hmode.
  exists (template_for templates (Some m)). unfold get_game.
  rewrite Hg, Hmode. split; [done|].
  split_and!; try (intros ->; reflexivity).
  - intros Hb Hr Hs Ha Hown. unfold template_for.
    destruct (decide (m = "normal")) as [->|Hn]; [done|].
    by rewrite templates_other, decide_False.
  - intros Hin. unfold template_for.
    destruct (templates_inherited m Hin) as [-> _]. by rewrite decide_True.
Qed.

(** X16: for a room of the table, the game page by path and the game
    page by query choose the same view, except for a room of mode
    bullet, which the first serves with the plain game view and the
    second with the bullet view. *)
Theorem game_routes_agree_except_bullet room_id games g :
  games !! room_id = Some g →
  room_id ≠ EmptyString →
  ∃ v1 v2,
    get_game room_id games = Render v1 [("room_id", LText room_id)]
    ∧ get_game_query (Some room_id) games
      = Render v2 [("room_id", LText room_id); ("game_id", LText room_id)]
    ∧ (v1 = v2 ↔ mode g ≠ "bullet")
    ∧ (mode g = "bullet" → v1 = "game" ∧ v2 = "game_bullet").
Proof.
  intros Hg Hne. unfold get_game, get_game_query.
  rewrite (decide_False (P := room_id = EmptyString)), Hg by done.
  eexists _, _.
  split; [done|]. split; [done|].
  destruct (decide (mode g = "bullet")) as [->|Hbu].
  { split; [|done]. split; [intros [=]|done]. }
  split; [|done]. split; [done|intros _].
  destruct (decide (mode g = "normal")) as [->|Hn]; [done|].
  destruct (decide (mode g = "blitz")) as [->|Hb]; [done|].
  destruct (decide (mode g = "rapid")) as [->|Hr]; [done|].
  destruct (decide (mode g = "stopwatch")) as [->|Hs]; [done|].
  destruct (decide (mode g = "analyse")) as [->|Ha]; [done|].
  unfold template_for. by rewrite templates_other, templates_query_other.
Qed.

(** X19: the analysis page of a room shows its history: after any
    sequence of events on a newly created room it renders the analysis
    view with the notations of the accepted moves, in the order in which
    they were accepted. *)
Theorem analyse_page_shows_accepted_moves
    (evs : list event) (m : string) room_id now games0 :
  get_analyse room_id (run evs (create m room_id now games0)).1
  = Render "analyse"
      [("moves", LJson (accepted_moves evs room_id
                          (create m room_id now games0)));
       ("room_id", LText room_id)].
Proof.
  destruct (run_move_list evs room_id _ _ (create_lookup m room_id now games0))
    as (g & Hg & Hl). simpl in Hl.
  unfold get_analyse. by rewrite Hg, Hl.
Qed.

End Properties.

(** ** The handlers on the sample engine *)

Section Examples.
#[local] Existing Instance Sample.engine.

Lemma sample_laws : ChessLaws Sample.engine.
Proof.
  split; [done|]. intros b rq b' san. simpl. unfold Sample.advance.
  repeat case_match; try done; intros [= <- _]; simpl;
    by destruct (Sample.to_move b).
Qed.

Example two_seats_room : Sample.two_seats !! "r1" = Some Sample.seated.
Proof. reflexivity. Qed.

Example opening_run :
  (λ g, (move_list g, turn (board g), time g))
    <$> (run Sample.opening Sample.fresh).1 !! "r1"
  = Some (["e4"; "e5"], SideW, Some (Clock 295 296)).
Proof. vm_compute. reflexivity. Qed.

Example opening_broadcasts :
  broadcasts "r1" (run Sample.opening Sample.fresh).2
  = [MChat "<i>white ist beigetreten</i>";
     MChat "<i>black ist beigetreten</i>";
     MMove (4, 1) (4, 3) Black ((4, 1), (4, 3)) (Some (Clock 295 300));
     MChat "<b>black:</b> hi";
     MMove (4, 6) (4, 4) White ((4, 6), (4, 4)) (Some (Clock 295 296))].
Proof. vm_compute. reflexivity. Qed.

(** Chat and move on the room id ["constructor"], which was never
    created: both handlers throw. *)
Lemma unknown_room_chat_move_outcome_witness :
  on_chat "bob" "constructor" "hi" Sample.two_seats
  = (Sample.two_seats, [Throw])
  ∧ on_move 1000 "bob" "constructor" (4, 1) (4, 3) Sample.two_seats
    = (Sample.two_seats, [Throw]).
Proof.
  destruct (unknown_room_chat_move_outcome "bob" "constructor" "hi" 1000
              (4, 1) (4, 3) Sample.two_seats) as [_ Hthrow]; [reflexivity|].
  apply Hthrow. apply (bool_decide_unpack _). vm_compute. exact I.
Defined.

(** Chat and move on a room id that was never created and names no
    inherited member: nothing happens. *)
Example unknown_room_quiet :
  on_chat "bob" "nowhere" "hi" Sample.two_seats = (Sample.two_seats, [])
  ∧ on_move 1000 "bob" "nowhere" (4, 1) (4, 3) Sample.two_seats
    = (Sample.two_seats, []).
Proof. split; reflexivity. Qed.

(** A join on a room id that was never created, next to a join on the
    full room. *)
Lemma join_unknown_room_signals_full_witness :
  on_join "carol" "nowhere" Sample.two_seats
  = (Sample.two_seats,
     [SocketJoin "carol" "nowhere"; Emit "carol" (MFull true)])
  ∧ replies "carol" (on_join "carol" "r1" Sample.two_seats).2
    = replies "carol" (on_join "carol" "nowhere" Sample.two_seats).2.
Proof.
  destruct (join_unknown_room_signals_full "carol" "nowhere" Sample.two_seats)
    as [Hjoin Hfull];
    [reflexivity|apply (bool_decide_unpack _); vm_compute; exact I|].
  split; [exact Hjoin|].
  apply (Hfull "r1" Sample.seated); reflexivity.
Defined.

(** The answer to a join on a room id that is not in the table is the
    answer to a join on a full room: the two cannot be told apart. *)
Lemma join_unknown_room_same_as_full :
  Sample.two_seats !! "nowhere" = None
  ∧ Sample.two_seats !! "r1" = Some Sample.seated
  ∧ size (players Sample.seated) = 2%nat
  ∧ replies "carol" (on_join "carol" "nowhere" Sample.two_seats).2
    = [MFull true]
  ∧ replies "carol" (on_join "carol" "r1" Sample.two_seats).2 = [MFull true].
Proof. split_and!; reflexivity. Qed.

(** A chat by the black player. *)
Lemma chat_broadcast_labelled_witness :
  on_chat "bob" "r1" "hi" Sample.two_seats
  = (Sample.two_seats, [Broadcast "r1" (MChat "<b>black:</b> hi")]).
Proof.
  destruct (chat_broadcast_labelled "bob" "r1" "hi" Sample.two_seats
              Sample.seated) as (text & Hchat & _ & Hblack & _);
    [reflexivity|].
  rewrite Hchat, Hblack; reflexivity.
Defined.

(** A chat by a connection without a seat goes out with a label all the
    same, the word [undefined]. *)
Lemma chat_without_seat_has_label :
  players Sample.seated !! "carol" = None
  ∧ on_chat "carol" "r1" "hi" Sample.two_seats
    = (Sample.two_seats, [Broadcast "r1" (MChat "<b>undefined:</b> hi")])
  ∧ "<b>undefined:</b> hi" ≠ "hi".
Proof. split; [|split]; [reflexivity..|discriminate]. Qed.

(** The white player, alone in the room, joins again. *)
Lemma rejoin_rebinds_to_black_witness :
  (on_join "alice" "r1" {["r1" := Sample.alone]}).1
  = {["r1" := set_players Sample.alone {["alice" := Black]}]}.
Proof.
  destruct (rejoin_rebinds_to_black "alice" "r1" {["r1" := Sample.alone]}
              Sample.alone) as (Hjoin & _);
    [reflexivity|reflexivity|].
  rewrite Hjoin. reflexivity.
Defined.

(** Two joins fill the room; a third is turned away. *)
Lemma join_keeps_two_distinct_seats_witness :
  (size (players Sample.seated) ≤ 2)%nat
  ∧ on_join "carol" "r1" Sample.two_seats
    = (Sample.two_seats, [SocketJoin "carol" "r1"; Emit "carol" (MFull true)]).
Proof.
  destruct (join_keeps_two_distinct_seats
              [EJoin "alice" "r1"; EJoin "bob" "r1"] "blitz" "r1" 0 ∅
              Sample.seated) as [Hsize Htwo]; [reflexivity|].
  destruct Htwo as [_ Hfull]; [reflexivity|].
  split; [exact Hsize|exact (Hfull "carol")].
Defined.

(** The white player disconnects. *)
Lemma disconnect_frees_own_seat_witness :
  broadcasts "r1" (on_disconnect "alice" Sample.two_seats).2
  = [MChat "<i>white hat verlassen</i>"].
Proof.
  destruct (disconnect_frees_own_seat "alice" "r1" Sample.two_seats
              Sample.seated)
    as (g' & _ & _ & _ & _ & _ & _ & _ & _ & Hleft & _);
    [reflexivity|].
  apply (Hleft White). reflexivity.
Defined.

(** A white pawn goes from a7 to a8. *)
Lemma move_translation_witness :
  from (translate Sample.endgame (0, 6) (0, 7)) = str "a7"
  ∧ to (translate Sample.endgame (0, 6) (0, 7)) = str "a8"
  ∧ promotion (translate Sample.endgame (0, 6) (0, 7)) = Some (str "q").
Proof.
  pose proof (move_translation 0 "alice" "r1" {["r1" := Sample.late]}
                Sample.late 0 6 0 7) as Hmove.
  cbv zeta in Hmove.
  destruct Hmove as (_ & _ & Hfrom & Hto & _ & _ & Hpromo & _);
    [reflexivity|reflexivity|lia..|].
  split; [exact Hfrom|]. split; [exact Hto|].
  apply Hpromo. exists (Piece Pawn SideW).
  split; [reflexivity|]. split; [reflexivity|]. left. done.
Defined.

(** White plays e2 to e4 five seconds after the room was created. *)
Lemma move_applied_iff_accepted_witness :
  ∃ g', (on_move 5000 "alice" "r1" (4, 1) (4, 3) Sample.two_seats).1 !! "r1"
        = Some g'
    ∧ applied Sample.seated g' (4, 1) (4, 3)
    ∧ time g' = Some (Clock 295 300) ∧ last_move_time g' = 5000.
Proof.
  destruct (move_applied_iff_accepted 5000 "alice" "r1" (4, 1) (4, 3)
              Sample.two_seats Sample.seated)
    as (g' & Hg' & Happlied & _ & _ & _ & _ & Hclock & _);
    [reflexivity|].
  exists g'. split; [exact Hg'|]. split.
  - apply Happlied. split; [reflexivity|]. eexists. reflexivity.
  - apply (Hclock ltac:(reflexivity) (Clock 300 300)). reflexivity.
Defined.

(** White tries e2 to e5 five seconds after the room was created: the
    move is not accepted, board and history stay, and white's clock has
    gone from 300 to 295 with the time of the last move reset. *)
Lemma rejected_move_changes_clock :
  ¬ accepted Sample.seated "alice" (4, 1) (4, 4)
  ∧ Sample.two_seats !! "r1" = Some Sample.seated
  ∧ time Sample.seated = Some (Clock 300 300)
  ∧ last_move_time Sample.seated = 0
  ∧ (on_move 5000 "alice" "r1" (4, 1) (4, 4) Sample.two_seats).1 !! "r1"
    = Some (set_clock Sample.seated (Some (Clock 295 300)) 5000)
  ∧ (on_move 5000 "alice" "r1" (4, 1) (4, 4) Sample.two_seats).1
    ≠ Sample.two_seats.
Proof.
  assert (Hroom : (on_move 5000 "alice" "r1" (4, 1) (4, 4) Sample.two_seats).1
                    !! "r1"
                  = Some (set_clock Sample.seated (Some (Clock 295 300)) 5000))
    by reflexivity.
  split; [|split; [|split; [|split; [|split]]]].
  - intros [_ Hsome]. vm_compute in Hsome. by destruct Hsome.
  - reflexivity.
  - reflexivity.
  - reflexivity.
  - exact Hroom.
  - intros Heq. rewrite Heq in Hroom.
    assert (Hseated : Sample.two_seats !! "r1" = Some Sample.seated)
      by reflexivity.
    rewrite Hseated in Hroom. injection Hroom as Hwhite Hlast.
    discriminate Hlast.
Qed.

(** The opening of the scenario: two accepted moves. *)
Lemma history_and_turn_after_accepted_moves_witness :
  ∃ g, (run Sample.opening Sample.fresh).1 !! "r1" = Some g
    ∧ move_list g = ["e4"; "e5"] ∧ turn (board g) = SideW.
Proof.
  destruct (history_and_turn_after_accepted_moves (ChessLaws0 := sample_laws)
              Sample.opening "blitz" "r1" 0 ∅) as (g & Hg & Hlist & _ & Hturn).
  exists g. split; [exact Hg|]. split.
  - rewrite Hlist. vm_compute. reflexivity.
  - rewrite Hturn. vm_compute. reflexivity.
Defined.

(** *** Further runs *)

(** The opening, with move times 5000, 6000 and 9000. *)
Lemma clocks_never_overcharge_witness :
  ∃ g t, (run Sample.opening Sample.fresh).1 !! "r1" = Some g
    ∧ time g = Some t ∧ white t ≤ 300 ∧ black t ≤ 300
    ∧ 1000 * ((300 - white t) + (300 - black t)) ≤ last_move_time g - 0.
Proof.
  destruct (clocks_never_overcharge Sample.opening "blitz" "r1" 0 ∅
              (Clock 300 300)) as (g & t & Hg & Ht & Hw & Hb & _ & Hsum);
    [simpl; lia|reflexivity|].
  exists g, t. split; [exact Hg|]. split; [exact Ht|].
  split; [exact Hw|]. split; [exact Hb|exact Hsum].
Defined.

Lemma mode_and_clock_kind_fixed_witness :
  ∃ g', (run Sample.opening Sample.fresh).1 !! "r1" = Some g'
    ∧ mode g' = "blitz".
Proof.
  destruct (mode_and_clock_kind_fixed Sample.opening "r1" Sample.fresh
              Sample.created) as (g' & Hg' & Hmode & _); [reflexivity|].
  exists g'. split; [exact Hg'|exact Hmode].
Defined.

Lemma history_append_only_witness :
  ∃ g', (run [EMove 5000 "alice" "r1" (4, 1) (4, 3)] Sample.two_seats).1
        !! "r1" = Some g'
    ∧ move_list g' = ["e4"].
Proof.
  destruct (history_append_only [EMove 5000 "alice" "r1" (4, 1) (4, 3)] "r1"
              Sample.two_seats Sample.seated) as (g' & Hg' & Hlist & _);
    [reflexivity|].
  exists g'. split; [exact Hg'|]. rewrite Hlist. vm_compute. reflexivity.
Defined.

(** ["bob"] joins the room in which ["alice"] is white. *)
Lemma join_assigns_free_color_witness :
  replies "bob" (on_join "bob" "r1" {["r1" := Sample.alone]}).2
  = [MPlayer Black "blitz" (Some (Clock 300 300))].
Proof.
  destruct (join_assigns_free_color "bob" "r1" {["r1" := Sample.alone]}
              Sample.alone) as [_ Hsecond]; [reflexivity|].
  rewrite (Hsecond "alice" White); [reflexivity|discriminate|reflexivity].
Defined.

Lemma rejoin_twice_restores_witness :
  (on_join "alice" "r1"
     (on_join "alice" "r1" {["r1" := Sample.alone]}).1).1
  = {["r1" := Sample.alone]}.
Proof.
  destruct (rejoin_twice_restores "alice" White "r1" {["r1" := Sample.alone]}
              Sample.alone) as [_ Hback]; [reflexivity|reflexivity|].
  exact Hback.
Defined.

Lemma join_frame_witness :
  ∃ g', (on_join "bob" "r1" {["r1" := Sample.alone]}).1 !! "r1" = Some g'
    ∧ board g' = Sample.start ∧ players g' !! "alice" = Some White.
Proof.
  destruct (join_frame "bob" "r1" {["r1" := Sample.alone]} "r1" Sample.alone)
    as (g' & Hg' & Hboard & _ & _ & _ & _ & Hseats & _); [reflexivity|].
  exists g'. split; [exact Hg'|]. split; [exact Hboard|].
  rewrite Hseats; [reflexivity|discriminate].
Defined.

Lemma join_then_disconnect_restores_witness :
  (on_disconnect "alice" (on_join "alice" "r1" Sample.fresh).1).1
  = Sample.fresh.
Proof.
  destruct (join_then_disconnect_restores "alice" "r1" Sample.fresh
              Sample.created) as [Hback _].
  - reflexivity.
  - vm_compute. lia.
  - intros r gr Hr. unfold Sample.fresh, create in Hr.
    apply lookup_insert_Some in Hr as [[_ <-]|[_ Hr]]; [reflexivity|].
    by rewrite lookup_empty in Hr.
  - exact Hback.
Defined.

(** White plays e2 to e4 and at once tries d2 to d4. *)
Lemma mover_cannot_move_twice_witness :
  on_move 6000 "alice" "r1" (3, 1) (3, 3)
    (on_move 5000 "alice" "r1" (4, 1) (4, 3) Sample.two_seats).1
  = ((on_move 5000 "alice" "r1" (4, 1) (4, 3) Sample.two_seats).1, []).
Proof.
  destruct (mover_cannot_move_twice (ChessLaws0 := sample_laws)
              5000 "alice" "r1" (4, 1) (4, 3) Sample.two_seats Sample.seated)
    as (c & g' & _ & _ & _ & Hdrop).
  - reflexivity.
  - split; [reflexivity|]. eexists. reflexivity.
  - apply Hdrop.
Defined.

(** White leaves the full room and ["carol"] joins. *)
Lemma disconnect_then_join_takes_freed_color_witness :
  replies "carol"
    (on_join "carol" "r1" (on_disconnect "alice" Sample.two_seats).1).2
  = [MPlayer White "blitz" (Some (Clock 300 300))].
Proof.
  rewrite (disconnect_then_join_takes_freed_color "alice" "carol" White "r1"
             Sample.two_seats Sample.seated).
  - reflexivity.
  - reflexivity.
  - apply (run_room_ok [EJoin "alice" "r1"; EJoin "bob" "r1"] "r1" _
             (create_room_ok "blitz" "r1" 0 ∅) Sample.seated). reflexivity.
  - reflexivity.
  - reflexivity.
Defined.

Lemma seated_have_joined_witness :
  EJoin "bob" "r1" ∈ [EJoin "alice" "r1"; EJoin "bob" "r1"].
Proof.
  apply (seated_have_joined (E := Sample.engine) _ "blitz" "r1" 0 ∅
           Sample.seated "bob").
  - reflexivity.
  - eexists. reflexivity.
Defined.

(** A move in ["r1"] seen from ["r2"]. *)
Lemma events_stay_in_their_room_witness :
  (step (EMove 5000 "alice" "r1" (4, 1) (4, 3)) Sample.two_rooms).1 !! "r2"
  = Sample.two_rooms !! "r2"
  ∧ broadcasts "r2"
      (step (EMove 5000 "alice" "r1" (4, 1) (4, 3)) Sample.two_rooms).2 = [].
Proof.
  destruct (events_stay_in_their_room
              (EMove 5000 "alice" "r1" (4, 1) (4, 3)) "r1" Sample.two_rooms
              "r2") as (Hstate & Hout & _); [reflexivity|discriminate|].
  split; [exact Hstate|exact Hout].
Defined.

(** The two game pages of a bullet room. *)
Lemma game_routes_agree_except_bullet_witness :
  get_game "b1" Sample.bullet_table = Render "game" [("room_id", LText "b1")]
  ∧ get_game_query (Some "b1") Sample.bullet_table
    = Render "game_bullet" [("room_id", LText "b1"); ("game_id", LText "b1")].
Proof.
  destruct (game_routes_agree_except_bullet "b1" Sample.bullet_table
              (MkGame (E := Sample.engine) Sample.start ∅ "bullet" None 0 []))
    as (v1 & v2 & Hpath & Hquery & _ & Hbullet); [reflexivity|discriminate|].
  destruct Hbullet as [-> ->]; [reflexivity|].
  split; [exact Hpath|exact Hquery].
Defined.

Example created_pages :
  get_game "r1" Sample.two_rooms = Render "game_blitz" [("room_id", LText "r1")]
  ∧ get_game "r2" Sample.two_rooms
    = Render "game_rapid" [("room_id", LText "r2")]
  ∧ get_analyse "r1" (run Sample.opening Sample.fresh).1
    = Render "analyse" [("moves", LJson ["e4"; "e5"]); ("room_id", LText "r1")].
Proof. split_and!; reflexivity. Qed.

(** File index 65536 names the a-file, as file index 0 does. *)
Lemma xy_to_uci_eq_iff_witness : xy_to_uci (65536, 3) = xy_to_uci (0, 3).
Proof.
  destruct (xy_to_uci_eq_iff 65536 3 0 3) as [Hiff _];
    [unfold safe_integer; lia..|].
  apply Hiff. split; reflexivity.
Defined.


(** The name ["constructor"], which is no room: the join handler
    subscribes the socket and throws, and the pages pass their guard.
    A room created with that name as its mode has no view name. *)
Example inherited_names :
  on_join "carol" "constructor" Sample.two_seats
  = (Sample.two_seats, [SocketJoin "carol" "constructor"; Throw])
  ∧ get_game "constructor" Sample.two_seats
    = Render "game" [("room_id", LText "constructor")]
  ∧ get_analyse "constructor" Sample.two_seats
    = Render "analyse"
        [("moves", LUndefined); ("room_id", LText "constructor")]
  ∧ get_game "c1" (create "constructor" "c1" 0 Sample.two_seats)
    = Render (ViewMember "constructor") [("room_id", LText "c1")]
  ∧ get_game "nowhere" Sample.two_seats = Send "Spiel existiert nicht!".
Proof. split_and!; reflexivity. Qed.

End Examples.
